(** * Code checkpoints: the search handler, the CRUD handlers and the input
      schemas, embedded from the TypeScript sources

    Sources embedded here:
    - [server/src/schema.ts]       (zod input schemas)
    - [server/src/db/schema.ts]    (the [code_checkpoints] table)
    - [server/src/handlers/search_code_checkpoints.ts]
    - [server/src/handlers/create_code_checkpoint.ts]
    - [server/src/handlers/get_code_checkpoint_by_id.ts]
    - [server/src/handlers/update_code_checkpoint.ts]
    - [server/src/handlers/delete_code_checkpoint.ts]
    - [server/src/index.ts]        (the procedures: schema, then handler)
    - [server/src/handlers/get_code_checkpoints.ts]
    - [client/src/App.tsx], [client/src/components/SearchInterface.tsx]
      (the state changes of the two forms and the calls they send)

    Conventions of the embedding.
    - Text is [string]; pattern matching works on [list ascii].
    - [id] and [created_at] are integers ([Z]); a time stamp is its number
      of microseconds.
    - A number is a rational ([Q]): the one that the decimal notation of
      the JavaScript number denotes, which is what the storage is sent.
      The [real] column and the cast [::real[]] round to 4-byte floats
      ([Float4.round]: 24 bits, nearest, ties to even, gradual
      underflow), and so do the product and the sum of the score.  Where
      the storage raises instead (a value out of the range of [real]),
      the search handler throws and returns nothing; [Call] has the
      writing handlers with that outcome.
    - [limit] and [offset] of a validated search input are naturals.
    - The table is the list of its rows in heap order; an update writes
      the new version of a row behind the others.  What the storage does
      on [ORDER BY] is the interface [StorageEngine]: some sorted
      permutation, nothing promised about rows with equal keys.
    - The writing handlers and the lookup come twice: as the statement
      they issue, on values the table holds ([id] an [int4], every key of
      an update holding a value), and in [Call] as they are called, with
      JavaScript values and with the outcome that the statement raised. *)

From Stdlib Require Import List Bool Arith ZArith QArith Qabs Lia.
From Stdlib Require Import Ascii String.
From Stdlib Require Import Permutation Sorting.Sorted.
Import ListNotations.

Set Implicit Arguments.
Local Set Warnings "-register-all".

(* ================================================================= *)
(** ** Text: case folding, substrings, SQL [LIKE] / [ILIKE] *)

Module Text.

Definition chars (s : string) : list ascii := list_ascii_of_string s.

(** ASCII lower-casing, as [ILIKE] folds both operands. *)
Definition lower_ascii (c : ascii) : ascii :=
  let n := nat_of_ascii c in
  if (65 <=? n)%nat && (n <=? 90)%nat then ascii_of_nat (n + 32) else c.

Definition lower (s : list ascii) : list ascii := map lower_ascii s.

Fixpoint prefixb (k s : list ascii) : bool :=
  match k, s with
  | [], _ => true
  | _ :: _, [] => false
  | a :: k', b :: s' => Ascii.eqb b a && prefixb k' s'
  end.

(** [substringb k s]: [k] occurs in [s] as a contiguous run. *)
Fixpoint substringb (k s : list ascii) : bool :=
  prefixb k s || match s with [] => false | _ :: s' => substringb k s' end.

(** The same, as a proposition. *)
Definition substring (k s : list ascii) : Prop :=
  exists pre post, s = pre ++ k ++ post.

(** Tokens of a [LIKE] pattern. *)
Inductive ptok : Type :=
| PAny                (* %  : any run of characters, also empty *)
| POne                (* _  : exactly one character *)
| PLit (c : ascii).   (* any other character, or an escaped one *)

Definition percent : ascii := "%"%char.
Definition underscore : ascii := "_"%char.
Definition backslash : ascii := "\"%char.

(** Backslash is the escape character of [LIKE]: it makes the next
    character a literal.  A pattern that ends in a lone backslash is
    refused by the storage; [like_pattern_ok] tells, and [like_tokens]
    reads that backslash as a literal (the handler never builds such a
    pattern, see [handler_pattern_ok]). *)
Fixpoint like_tokens (p : list ascii) : list ptok :=
  match p with
  | [] => []
  | c :: rest =>
      if Ascii.eqb c backslash then
        match rest with
        | [] => [PLit c]
        | d :: rest' => PLit d :: like_tokens rest'
        end
      else if Ascii.eqb c percent then PAny :: like_tokens rest
      else if Ascii.eqb c underscore then POne :: like_tokens rest
      else PLit c :: like_tokens rest
  end.

Fixpoint like_pattern_ok (p : list ascii) : bool :=
  match p with
  | [] => true
  | c :: rest =>
      if Ascii.eqb c backslash then
        match rest with
        | [] => false
        | _ :: rest' => like_pattern_ok rest'
        end
      else like_pattern_ok rest
  end.

Fixpoint like_match (ts : list ptok) (s : list ascii) : bool :=
  match ts with
  | [] => match s with [] => true | _ :: _ => false end
  | PLit c :: ts' =>
      match s with
      | [] => false
      | a :: s' => Ascii.eqb a c && like_match ts' s'
      end
  | POne :: ts' =>
      match s with
      | [] => false
      | _ :: s' => like_match ts' s'
      end
  | PAny :: ts' =>
      (fix any (s : list ascii) : bool :=
         like_match ts' s
         || match s with [] => false | _ :: s' => any s' end) s
  end.

(** [text LIKE pattern] *)
Definition like (text pattern : list ascii) : bool :=
  like_match (like_tokens pattern) text.

(** [text ILIKE pattern] *)
Definition ilike (text pattern : string) : bool :=
  like (lower (chars text)) (lower (chars pattern)).

(** The template literal [`%${keyword}%`]. *)
Definition wrap_percent (keyword : string) : string :=
  ("%" ++ keyword ++ "%")%string.

(** A string as a value of type [text]: the storage refuses the character
    of code 0. *)
Definition storable (s : string) : bool :=
  negb (existsb (Ascii.eqb Ascii.zero) (chars s)).

(** A keyword without [%], [_] and [\]. *)
Definition plain_char (c : ascii) : bool :=
  negb (Ascii.eqb c percent || Ascii.eqb c underscore || Ascii.eqb c backslash).

Definition plain (k : list ascii) : bool := forallb plain_char k.

End Text.

(* ================================================================= *)
(** ** Data model: [server/src/db/schema.ts], [server/src/schema.ts] *)

(** A row of [code_checkpoints] ([codeCheckpointSchema]). *)
Module CodeCheckpoint.
Record t : Type := mk {
  id : Z;
  title : string;
  summary : string;
  code_snippet : string;
  user_feedback : string;
  programming_language : string;
  tags : list string;
  embedding : list Q;
  created_at : Z
}.
End CodeCheckpoint.

(** [CreateCodeCheckpointInput]: the output type of the create schema. *)
Module CreateInput.
Record t : Type := mk {
  title : string;
  summary : string;
  code_snippet : string;
  user_feedback : string;
  programming_language : string;
  tags : list string;
  embedding : list Q
}.
End CreateInput.

(** [UpdateCodeCheckpointInput] with no key that holds [undefined] and an
    [id] of the column's type: [None] is a key that the object does not
    have, [Some v] a key with value [v].  [UpdateObject] below has the
    other objects too. *)
Module UpdateInput.
Record t : Type := mk {
  id : Z;
  title : option string;
  summary : option string;
  code_snippet : option string;
  user_feedback : option string;
  programming_language : option string;
  tags : option (list string);
  embedding : option (list Q)
}.
End UpdateInput.

(** [SearchCodeCheckpointsInput]. *)
Module SearchInput.
Record t : Type := mk {
  query : option string;
  keywords : option (list string);
  programming_language : option string;
  tags : option (list string);
  embedding : option (list Q);
  limit : nat;
  offset : nat
}.
End SearchInput.

(** [SearchResults]. *)
Module SearchResults.
Record t : Type := mk {
  results : list CodeCheckpoint.t;
  total : nat;
  has_more : bool
}.
End SearchResults.

(* ================================================================= *)
(** ** The zod schemas of [server/src/schema.ts] *)

Module Zod.

(** What a procedure receives before validation. *)
Inductive value : Type :=
| VUndefined
| VNull
| VBool (b : bool)
| VNumber (q : Q)
| VString (s : string)
| VArray (items : list value)
| VObject (fields : list (string * value)).

(** The outcome of [schema.parse]: the parsed value, or the paths of the
    issues. *)
Inductive result (A : Type) : Type :=
| Valid (a : A)
| Invalid (issues : list string).
Arguments Valid {A} a.
Arguments Invalid {A} issues.

Definition is_valid {A} (r : result A) : bool :=
  match r with Valid _ => true | Invalid _ => false end.

(** Reading a key of an object; a missing key reads as [undefined]. *)
Fixpoint lookup (k : string) (fields : list (string * value)) : value :=
  match fields with
  | [] => VUndefined
  | (k', v) :: rest => if String.eqb k k' then v else lookup k rest
  end.

(** Field parsers return [None] on an issue. *)
Definition parser (A : Type) : Type := value -> option A.

(** [z.string()] *)
Definition z_string : parser string :=
  fun v => match v with VString s => Some s | _ => None end.

(** [z.string().min(1, ...)] *)
Definition z_string_min1 : parser string :=
  fun v =>
    match z_string v with
    | Some s => if (1 <=? String.length s)%nat then Some s else None
    | None => None
    end.

(** [z.number()] *)
Definition z_number : parser Q :=
  fun v => match v with VNumber q => Some q | _ => None end.

Definition is_int (q : Q) : bool := Z.eqb (Z.modulo (Qnum q) (Zpos (Qden q))) 0.

(** [z.number().int().positive()] *)
Definition z_int_positive : parser nat :=
  fun v =>
    match z_number v with
    | Some q =>
        if is_int q && (0 <? Qnum q)%Z
        then Some (Z.to_nat (Qnum q / Zpos (Qden q))) else None
    | None => None
    end.

(** [z.number().int().nonnegative()] *)
Definition z_int_nonnegative : parser nat :=
  fun v =>
    match z_number v with
    | Some q =>
        if is_int q && (0 <=? Qnum q)%Z
        then Some (Z.to_nat (Qnum q / Zpos (Qden q))) else None
    | None => None
    end.

(** [z.array(item)] *)
Fixpoint parse_items {A} (item : parser A) (l : list value) : option (list A) :=
  match l with
  | [] => Some []
  | v :: rest =>
      match item v, parse_items item rest with
      | Some a, Some r => Some (a :: r)
      | _, _ => None
      end
  end.

Definition z_array {A} (item : parser A) : parser (list A) :=
  fun v => match v with VArray l => parse_items item l | _ => None end.

(** [.optional()] *)
Definition z_optional {A} (p : parser A) : parser (option A) :=
  fun v =>
    match v with
    | VUndefined => Some None
    | _ => option_map Some (p v)
    end.

(** [.default(d)] *)
Definition z_default {A} (p : parser A) (d : A) : parser A :=
  fun v => match v with VUndefined => Some d | _ => p v end.

(** One key of a [z.object]: the parsed field, or the key as an issue. *)
Definition field {A} (k : string) (p : parser A) (fields : list (string * value))
  : A + string :=
  match p (lookup k fields) with
  | Some a => inl a
  | None => inr k
  end.

Definition issue_of {A} (r : A + string) : list string :=
  match r with inl _ => [] | inr k => [k] end.

(** [createCodeCheckpointInputSchema] *)
Definition createCodeCheckpointInputSchema (v : value) : result CreateInput.t :=
  match v with
  | VObject o =>
      let title := field "title" z_string_min1 o in
      let summary := field "summary" z_string_min1 o in
      let code_snippet := field "code_snippet" z_string_min1 o in
      let user_feedback := field "user_feedback" z_string_min1 o in
      let programming_language := field "programming_language" z_string_min1 o in
      let tags := field "tags" (z_default (z_array z_string) []) o in
      let embedding := field "embedding" (z_array z_number) o in
      match title, summary, code_snippet, user_feedback,
            programming_language, tags, embedding with
      | inl t, inl s, inl c, inl u, inl p, inl g, inl e =>
          Valid (CreateInput.mk t s c u p g e)
      | _, _, _, _, _, _, _ =>
          Invalid (issue_of title ++ issue_of summary ++ issue_of code_snippet
                   ++ issue_of user_feedback ++ issue_of programming_language
                   ++ issue_of tags ++ issue_of embedding)
      end
  | _ => Invalid [""%string]
  end.

(** [searchCodeCheckpointsInputSchema] *)
Definition searchCodeCheckpointsInputSchema (v : value) : result SearchInput.t :=
  match v with
  | VObject o =>
      let query := field "query" (z_optional z_string) o in
      let keywords := field "keywords" (z_optional (z_array z_string)) o in
      let programming_language :=
        field "programming_language" (z_optional z_string) o in
      let tags := field "tags" (z_optional (z_array z_string)) o in
      let embedding := field "embedding" (z_optional (z_array z_number)) o in
      let limit := field "limit" (z_default z_int_positive 20%nat) o in
      let offset := field "offset" (z_default z_int_nonnegative 0%nat) o in
      match query, keywords, programming_language, tags, embedding,
            limit, offset with
      | inl q, inl k, inl p, inl g, inl e, inl l, inl f =>
          Valid (SearchInput.mk q k p g e l f)
      | _, _, _, _, _, _, _ =>
          Invalid (issue_of query ++ issue_of keywords
                   ++ issue_of programming_language ++ issue_of tags
                   ++ issue_of embedding ++ issue_of limit ++ issue_of offset)
      end
  | _ => Invalid [""%string]
  end.

End Zod.

(* ================================================================= *)
(** ** The storage: table, conditions, [ORDER BY], statements *)

Definition row : Type := CodeCheckpoint.t.

(** A [WHERE] condition as the handlers build it with drizzle's [eq],
    [ilike], [or], [and] and raw [sql]. *)
Inductive condition : Type :=
| EqId (v : Z)                   (* eq(table.id, v) *)
| EqLanguage (v : string)        (* eq(table.programming_language, v) *)
| TagsContain (tag : string)     (* tags @> ARRAY[tag]::text[] *)
| ILikeTitle (pattern : string)  (* ilike(table.title, pattern) *)
| ILikeSummary (pattern : string) (* ilike(table.summary, pattern) *)
| ILikeTagText (pattern : string) (* array_to_string(tags, ' ') ILIKE pattern *)
| Or (cs : list condition)
| And (cs : list condition).

(** [array_to_string(tags, ' ')] *)
Definition array_to_string (tags : list string) : string :=
  String.concat " " tags.

(** [tags @> ARRAY[tag]]: every element of the right array is an element
    of the left one. *)
Definition array_contains (tags : list string) (tag : string) : bool :=
  existsb (String.eqb tag) tags.

Fixpoint holds (c : condition) (r : row) : bool :=
  match c with
  | EqId v => Z.eqb (CodeCheckpoint.id r) v
  | EqLanguage v => String.eqb (CodeCheckpoint.programming_language r) v
  | TagsContain tag => array_contains (CodeCheckpoint.tags r) tag
  | ILikeTitle p => Text.ilike (CodeCheckpoint.title r) p
  | ILikeSummary p => Text.ilike (CodeCheckpoint.summary r) p
  | ILikeTagText p => Text.ilike (array_to_string (CodeCheckpoint.tags r)) p
  | Or cs => existsb (fun c' => holds c' r) cs
  | And cs => forallb (fun c' => holds c' r) cs
  end.

(** The database: the rows of the table in heap order and the sequence
    behind the [serial] column. *)
Record database : Type := mkdb {
  rows : list row;
  id_seq : Z
}.

(** The primary key. *)
Definition primary_key (db : database) : Prop :=
  NoDup (map CodeCheckpoint.id (rows db)).

(** What [ORDER BY] gives: the rows, permuted, each one before the rows it
    may precede.  [before a b = true] reads "a may come before b"; for a
    total and transitive [before] the outcome is sorted.  Two rows with
    equal keys may come out either way. *)
Class StorageEngine : Type := {
  order_by : (row -> row -> bool) -> list row -> list row;
  order_by_permutation :
    forall before l, Permutation l (order_by before l);
  order_by_sorted :
    forall before l,
      (forall a b, before a b = true \/ before b a = true) ->
      (forall a b c, before a b = true -> before b c = true ->
                     before a c = true) ->
      StronglySorted (fun a b => before a b = true) (order_by before l)
}.

(** Two engines.  Both sort by insertion; the first keeps rows with equal
    keys in heap order, the second in reverse heap order. *)
Fixpoint insert_sorted (before : row -> row -> bool) (x : row) (l : list row)
  : list row :=
  match l with
  | [] => [x]
  | y :: l' =>
      if before x y then x :: y :: l' else y :: insert_sorted before x l'
  end.

Definition insertion_sort (before : row -> row -> bool) (l : list row)
  : list row :=
  fold_right (insert_sorted before) [] l.

(* ================================================================= *)
(** ** [ORDER BY] expressions of the search handler *)

(** [desc(table.created_at)] *)
Definition created_at_desc (a b : row) : bool :=
  (CodeCheckpoint.created_at b <=? CodeCheckpoint.created_at a)%Z.

(** The type [real] of the storage: IEEE 754 binary32 values, as the
    rationals they are.  Signed zeros, infinities and NaN are left out:
    no number that passes the schemas gives one without the storage
    raising. *)
Module Float4.

(** [2^k], for any integer [k]. *)
Definition pow2 (k : Z) : Q :=
  if (0 <=? k)%Z then inject_Z (2 ^ k) else Qmake 1 (Z.to_pos (2 ^ (- k))).

(** Is [2^k <= n/d]? *)
Definition at_least_pow2 (n d : positive) (k : Z) : bool :=
  if (0 <=? k)%Z then (Zpos d * 2 ^ k <=? Zpos n)%Z
  else (Zpos d <=? Zpos n * 2 ^ (- k))%Z.

(** The exponent of the leading bit of [n/d]: the [e] with
    [2^e <= n/d < 2^(e+1)]. *)
Definition exponent (n d : positive) : Z :=
  let k := (Z.log2 (Zpos n) - Z.log2 (Zpos d))%Z in
  if at_least_pow2 n d k then k else (k - 1)%Z.

(** [N/D] rounded to the nearest integer, a tie to the even one. *)
Definition nearest_even (N D : Z) : Z :=
  let f := (N / D)%Z in
  match (2 * (N mod D) ?= D)%Z with
  | Lt => f
  | Gt => (f + 1)%Z
  | Eq => if Z.even f then f else (f + 1)%Z
  end.

(** The exponent of the last bit kept for [n/d]: 24 bits, and nothing
    below [2^-149]. *)
Definition last_bit (n d : positive) : Z :=
  Z.max (exponent n d - 23) (-149).

Definition round_positive (n d : positive) : Q :=
  let u := last_bit n d in
  let m := if (0 <=? u)%Z then nearest_even (Zpos n) (Zpos d * 2 ^ u)
           else nearest_even (Zpos n * 2 ^ (- u)) (Zpos d) in
  (inject_Z m * pow2 u)%Q.

(** The value of type [real] nearest to a number. *)
Definition round (q : Q) : Q :=
  match Qnum q with
  | Z0 => 0%Q
  | Zpos n => round_positive n (Qden q)
  | Zneg n => Qopp (round_positive n (Qden q))
  end.

(** [float4mul] and [float4pl]: the exact result, rounded. *)
Definition mul (x y : Q) : Q := round (x * y).
Definition add (x y : Q) : Q := round (x + y).

(** Beyond the largest [real] the storage raises instead of rounding. *)
Definition overflows (x : Q) : bool := Qle_bool (pow2 128) (Qabs (round x)).

Definition is_zero (x : Q) : bool := Qeq_bool x 0.

(** [float4in], which reads the elements of a [real[]] parameter: a number
    is refused when it overflows, and when it is not zero but rounds to
    zero. *)
Definition accepts (x : Q) : bool :=
  negb (overflows x) && (is_zero x || negb (is_zero (round x))).

End Float4.

(** A [real[]] column read by a query, and the cast [ARRAY[...]::real[]]. *)
Definition real_array (l : list Q) : list Q := map Float4.round l.

(** [unnest(arr) WITH ORDINALITY t(val, ord)]: ordinals count from 1. *)
Definition unnest_with_ordinality (arr : list Q) : list (Q * nat) :=
  combine arr (seq 1 (List.length arr)).

(** [e JOIN v ON e.ord = v.ord], a nested loop. *)
Definition join_on_ord (e v : list (Q * nat)) : list ((Q * nat) * (Q * nat)) :=
  flat_map (fun er => map (fun vr => (er, vr))
                        (filter (fun vr => Nat.eqb (snd er) (snd vr)) v)) e.

(** [SUM(x)] over [real]: [NULL] over no rows, else the rows added up one
    after the other with [float4pl]. *)
Definition sql_sum (xs : list Q) : option Q :=
  match xs with
  | [] => None
  | x :: rest => Some (fold_left Float4.add rest x)
  end.

(** [COALESCE(x, d)] *)
Definition coalesce (x : option Q) (d : Q) : Q :=
  match x with Some q => q | None => d end.

(** [e.val * v.val] on a row of the join: [float4mul]. *)
Definition product_of (p : (Q * nat) * (Q * nat)) : Q :=
  Float4.mul (fst (fst p)) (fst (snd p)).

(** The scalar subquery of the [ORDER BY]:
    [SELECT COALESCE(SUM(e.val * v.val), 0)
     FROM unnest(embedding) WITH ORDINALITY e(val, ord)
     JOIN unnest(ARRAY[...]::real[]) WITH ORDINALITY v(val, ord)
       ON e.ord = v.ord] *)
Definition similarity (query_embedding stored : list Q) : Q :=
  coalesce
    (sql_sum
       (map product_of
            (join_on_ord (unnest_with_ordinality (real_array stored))
                         (unnest_with_ordinality (real_array query_embedding)))))
    0%Q.

(** [(subquery) DESC] *)
Definition similarity_desc (query_embedding : list Q) (a b : row) : bool :=
  Qle_bool (similarity query_embedding (CodeCheckpoint.embedding b))
           (similarity query_embedding (CodeCheckpoint.embedding a)).

(** The dot product in exact arithmetic: the sum, position by position,
    of the products of corresponding elements. *)
Fixpoint dot_product (a b : list Q) : Q :=
  match a, b with
  | x :: a', y :: b' => (x * y + dot_product a' b')%Q
  | _, _ => 0%Q
  end.

(** The dot product as the storage computes it: the elements as [real],
    position by position the product of corresponding elements, each
    product and each partial sum rounded to [real]. *)
Fixpoint float4_dot_from (acc : Q) (a b : list Q) : Q :=
  match a, b with
  | x :: a', y :: b' =>
      float4_dot_from
        (Float4.add acc (Float4.mul (Float4.round x) (Float4.round y))) a' b'
  | _, _ => acc
  end.

Definition float4_dot_product (a b : list Q) : Q :=
  match a, b with
  | x :: a', y :: b' =>
      float4_dot_from (Float4.mul (Float4.round x) (Float4.round y)) a' b'
  | _, _ => 0%Q
  end.

(* ================================================================= *)
(** ** [server/src/handlers/search_code_checkpoints.ts] *)

(** [if (cs.length === 1) conditions.push(cs[0]);
     else if (cs.length > 1) conditions.push(combine(...cs));] *)
Definition push_combined (combine : list condition -> condition)
           (cs : list condition) : list condition :=
  match cs with
  | [] => []
  | [c] => [c]
  | _ :: _ :: _ => [combine cs]
  end.

(** A string in a JavaScript condition: the empty string is falsy. *)
Definition truthy (s : string) : bool := negb (String.eqb s "").

Definition language_conditions (input : SearchInput.t) : list condition :=
  match SearchInput.programming_language input with
  | Some l => if truthy l then [EqLanguage l] else []
  | None => []
  end.

Definition tag_conditions (input : SearchInput.t) : list condition :=
  match SearchInput.tags input with
  | Some ts =>
      if (0 <? List.length ts)%nat then
        let validTagConditions :=
          filter (fun _ => true) (map TagsContain ts) in
        push_combined Or validTagConditions
      else []
  | None => []
  end.

(** The body of the loop over the keywords. *)
Definition keyword_condition (keyword : string) : condition :=
  let titleMatch := ILikeTitle (Text.wrap_percent keyword) in
  let summaryMatch := ILikeSummary (Text.wrap_percent keyword) in
  let tagMatch := ILikeTagText (Text.wrap_percent keyword) in
  Or [titleMatch; summaryMatch; tagMatch].

Definition keyword_conditions (input : SearchInput.t) : list condition :=
  match SearchInput.keywords input with
  | Some ks =>
      if (0 <? List.length ks)%nat then
        let keywordConditions := map keyword_condition ks in
        push_combined And keywordConditions
      else []
  | None => []
  end.

Definition conditions (input : SearchInput.t) : list condition :=
  language_conditions input ++ tag_conditions input ++ keyword_conditions input.

(** [conditions.length > 0 ? (conditions.length === 1 ? q.where(c0)
                                                     : q.where(and(...)))
                          : q] *)
Definition apply_where (cs : list condition) (table : list row) : list row :=
  match cs with
  | [] => table
  | [c] => filter (holds c) table
  | _ :: _ :: _ => filter (holds (And cs)) table
  end.

(** The predicate of a search: a row is in the matching set. *)
Definition matches (input : SearchInput.t) (r : row) : bool :=
  forallb (fun c => holds c r) (conditions input).

(** [({ ...checkpoint, created_at: checkpoint.created_at })] *)
Definition format_result (checkpoint : row) : row :=
  CodeCheckpoint.mk
    (CodeCheckpoint.id checkpoint) (CodeCheckpoint.title checkpoint)
    (CodeCheckpoint.summary checkpoint) (CodeCheckpoint.code_snippet checkpoint)
    (CodeCheckpoint.user_feedback checkpoint)
    (CodeCheckpoint.programming_language checkpoint)
    (CodeCheckpoint.tags checkpoint) (CodeCheckpoint.embedding checkpoint)
    (CodeCheckpoint.created_at checkpoint).

(** [input.embedding && input.embedding.length > 0]: an array is truthy,
    also when empty. *)
Definition ranking_embedding (input : SearchInput.t) : option (list Q) :=
  match SearchInput.embedding input with
  | Some e => if (0 <? List.length e)%nat then Some e else None
  | None => None
  end.

Section Handlers.

Context {engine : StorageEngine}.

Definition searchCodeCheckpoints (db : database) (input : SearchInput.t)
  : SearchResults.t :=
  let conditions := conditions input in
  let queryWithWhere := apply_where conditions (rows db) in
  let queryWithOrder :=
    match ranking_embedding input with
    | Some e => order_by (similarity_desc e) queryWithWhere
    | None => order_by created_at_desc queryWithWhere
    end in
  (* .limit(input.limit).offset(input.offset) *)
  let finalQuery :=
    firstn (SearchInput.limit input)
           (skipn (SearchInput.offset input) queryWithOrder) in
  let countQuery := List.length (apply_where conditions (rows db)) in
  (* countResult[0]?.count || 0 *)
  let total := if (countQuery =? 0)%nat then 0%nat else countQuery in
  let hasMore :=
    (SearchInput.offset input + SearchInput.limit input <? total)%nat in
  let formattedResults := map format_result finalQuery in
  SearchResults.mk formattedResults total hasMore.

End Handlers.

(* ================================================================= *)
(** ** The other handlers *)

(** [create_code_checkpoint.ts]: [insert ... returning]; [id] comes from
    the sequence, [created_at] from [defaultNow()], here [now].  The
    values are those the columns hold; [Call.createCodeCheckpoint] has
    the rounding of the embedding and the insert that raises. *)
Definition createCodeCheckpoint (now : Z) (db : database) (input : CreateInput.t)
  : database * row :=
  let checkpoint :=
    CodeCheckpoint.mk (id_seq db)
      (CreateInput.title input) (CreateInput.summary input)
      (CreateInput.code_snippet input) (CreateInput.user_feedback input)
      (CreateInput.programming_language input)
      (CreateInput.tags input) (CreateInput.embedding input) now in
  (mkdb (rows db ++ [checkpoint]) (id_seq db + 1), checkpoint).

(** [get_code_checkpoint_by_id.ts], for an [id] of the column's type. *)
Definition getCodeCheckpointById (db : database) (id : Z) : option row :=
  let result := filter (holds (EqId id)) (rows db) in
  match result with
  | [] => None
  | checkpoint :: _ => Some (format_result checkpoint)
  end.

(** [Object.keys(updateFields).length], [updateFields] being the input
    without [id]. *)
Definition count_key {A} (o : option A) : nat :=
  match o with Some _ => 1 | None => 0 end.

Definition update_keys (input : UpdateInput.t) : nat :=
  count_key (UpdateInput.title input) + count_key (UpdateInput.summary input)
  + count_key (UpdateInput.code_snippet input)
  + count_key (UpdateInput.user_feedback input)
  + count_key (UpdateInput.programming_language input)
  + count_key (UpdateInput.tags input) + count_key (UpdateInput.embedding input).

Definition overwrite {A} (supplied : option A) (old : A) : A :=
  match supplied with Some v => v | None => old end.

(** [.set(updateFields)] on one row. *)
Definition set_fields (input : UpdateInput.t) (r : row) : row :=
  CodeCheckpoint.mk
    (CodeCheckpoint.id r)
    (overwrite (UpdateInput.title input) (CodeCheckpoint.title r))
    (overwrite (UpdateInput.summary input) (CodeCheckpoint.summary r))
    (overwrite (UpdateInput.code_snippet input) (CodeCheckpoint.code_snippet r))
    (overwrite (UpdateInput.user_feedback input) (CodeCheckpoint.user_feedback r))
    (overwrite (UpdateInput.programming_language input)
               (CodeCheckpoint.programming_language r))
    (overwrite (UpdateInput.tags input) (CodeCheckpoint.tags r))
    (overwrite (UpdateInput.embedding input) (CodeCheckpoint.embedding r))
    (CodeCheckpoint.created_at r).

(** [update ... set ... where c returning *]: the table afterwards and the
    rows returned.  The store writes an updated row as a new version of
    it, behind the rows there are, and the version before is gone: a scan
    of the table meets the updated rows last. *)
Definition sql_update (c : condition) (f : row -> row) (table : list row)
  : list row * list row :=
  (filter (fun r => negb (holds c r)) table ++ map f (filter (holds c) table),
   map f (filter (holds c) table)).

(** [delete ... where c]: the table afterwards and [rowCount]. *)
Definition sql_delete (c : condition) (table : list row) : list row * nat :=
  (filter (fun r => negb (holds c r)) table,
   List.length (filter (holds c) table)).

(** [update_code_checkpoint.ts] *)
Definition updateCodeCheckpoint (db : database) (input : UpdateInput.t)
  : database * option row :=
  let id := UpdateInput.id input in
  if (update_keys input =? 0)%nat then
    let existingRecord := filter (holds (EqId id)) (rows db) in
    match existingRecord with
    | [] => (db, None)
    | r :: _ => (db, Some r)
    end
  else
    let (table, result) := sql_update (EqId id) (set_fields input) (rows db) in
    match result with
    | [] => (mkdb table (id_seq db), None)
    | r :: _ => (mkdb table (id_seq db), Some r)
    end.

(** [delete_code_checkpoint.ts]: [(result.rowCount ?? 0) > 0], for an
    [id] of the column's type. *)
Definition deleteCodeCheckpoint (db : database) (id : Z) : database * bool :=
  let (table, rowCount) := sql_delete (EqId id) (rows db) in
  (mkdb table (id_seq db), (0 <? rowCount)%nat).

(* ================================================================= *)
(** ** The handlers as they are called *)

(** The definitions above are the statements the handlers issue, on
    values the table can hold.  A handler is called with JavaScript
    values: an [id] is a number, a key of an update may hold [undefined],
    an embedding is a list of doubles.  Where the statement or its
    builder raises, the handler logs and throws the error on
    ([catch (error) { console.error(...); throw error; }]). *)
Inductive outcome (A : Type) : Type :=
| Returned (a : A)
| Thrown.
Arguments Returned {A} a.
Arguments Thrown {A}.

(** [id] is [serial], an [int4]. *)
Definition int4_min : Z := -2147483648.
Definition int4_max : Z := 2147483647.

Definition is_int4 (z : Z) : bool := (int4_min <=? z)%Z && (z <=? int4_max)%Z.

(** A number as the parameter of [eq(codeCheckpointsTable.id, id)]: the
    statement raises unless it is an integer in the range of [int4]. *)
Definition int4_of (n : Q) : option Z :=
  let z := (Qnum n / Zpos (Qden n))%Z in
  if Zod.is_int n && is_int4 z then Some z else None.

(** A key of a JavaScript object: not there, there holding [undefined],
    or there holding a value. *)
Inductive property (A : Type) : Type :=
| Missing
| Undefined
| Holds (a : A).
Arguments Missing {A}.
Arguments Undefined {A}.
Arguments Holds {A} a.

(** An object of type [UpdateCodeCheckpointInput]: every field but [id]
    is optional, and an optional key may be there and hold [undefined]. *)
Module UpdateObject.
Record t : Type := mk {
  id : Q;
  title : property string;
  summary : property string;
  code_snippet : property string;
  user_feedback : property string;
  programming_language : property string;
  tags : property (list string);
  embedding : property (list Q)
}.
End UpdateObject.

(** What a procedure answers: the handler's result, the issues of the
    schema, or the error the handler threw. *)
Inductive response (A : Type) : Type :=
| Result (a : A)
| BadRequest (issues : list string)
| ServerError.
Arguments Result {A} a.
Arguments BadRequest {A} issues.
Arguments ServerError {A}.

Module Call.

Definition value {A} (p : property A) : option A :=
  match p with Holds a => Some a | _ => None end.

Definition has_key {A} (p : property A) : nat :=
  match p with Missing => 0 | _ => 1 end.

(** [Object.keys(updateFields).length]: a key that holds [undefined]
    counts. *)
Definition keys (u : UpdateObject.t) : nat :=
  has_key (UpdateObject.title u) + has_key (UpdateObject.summary u)
  + has_key (UpdateObject.code_snippet u)
  + has_key (UpdateObject.user_feedback u)
  + has_key (UpdateObject.programming_language u)
  + has_key (UpdateObject.tags u) + has_key (UpdateObject.embedding u).

(** The keys [.set(updateFields)] writes: it leaves out those that hold
    [undefined], and throws when it is left with none. *)
Definition values (u : UpdateObject.t) : nat :=
  count_key (value (UpdateObject.title u))
  + count_key (value (UpdateObject.summary u))
  + count_key (value (UpdateObject.code_snippet u))
  + count_key (value (UpdateObject.user_feedback u))
  + count_key (value (UpdateObject.programming_language u))
  + count_key (value (UpdateObject.tags u))
  + count_key (value (UpdateObject.embedding u)).

(** The values of a statement as the storage reads them: it raises on a
    string that is no [text] and on a number out of the range of [real];
    a key that holds no value is not sent. *)
Definition storable_text (p : property string) : bool :=
  match p with Holds s => Text.storable s | _ => true end.

Definition storable_tags (p : property (list string)) : bool :=
  match p with Holds g => forallb Text.storable g | _ => true end.

Definition storable_embedding (p : property (list Q)) : bool :=
  match p with Holds e => forallb Float4.accepts e | _ => true end.

Definition storable_update (u : UpdateObject.t) : bool :=
  storable_text (UpdateObject.title u)
  && storable_text (UpdateObject.summary u)
  && storable_text (UpdateObject.code_snippet u)
  && storable_text (UpdateObject.user_feedback u)
  && storable_text (UpdateObject.programming_language u)
  && storable_tags (UpdateObject.tags u)
  && storable_embedding (UpdateObject.embedding u).

Definition storable_create (input : CreateInput.t) : bool :=
  Text.storable (CreateInput.title input)
  && Text.storable (CreateInput.summary input)
  && Text.storable (CreateInput.code_snippet input)
  && Text.storable (CreateInput.user_feedback input)
  && Text.storable (CreateInput.programming_language input)
  && forallb Text.storable (CreateInput.tags input)
  && forallb Float4.accepts (CreateInput.embedding input).

(** The values the statement then writes: the embedding as [real[]]. *)
Definition update_input (id : Z) (u : UpdateObject.t) : UpdateInput.t :=
  UpdateInput.mk id
    (value (UpdateObject.title u)) (value (UpdateObject.summary u))
    (value (UpdateObject.code_snippet u))
    (value (UpdateObject.user_feedback u))
    (value (UpdateObject.programming_language u))
    (value (UpdateObject.tags u))
    (option_map real_array (value (UpdateObject.embedding u))).

Definition create_input (input : CreateInput.t) : CreateInput.t :=
  CreateInput.mk
    (CreateInput.title input) (CreateInput.summary input)
    (CreateInput.code_snippet input) (CreateInput.user_feedback input)
    (CreateInput.programming_language input) (CreateInput.tags input)
    (real_array (CreateInput.embedding input)).

(** [createCodeCheckpoint(input)]: the insert raises when the sequence
    has left [int4] or a value of the input cannot be stored. *)
Definition createCodeCheckpoint (now : Z) (db : database)
           (input : CreateInput.t) : outcome (database * row) :=
  if is_int4 (id_seq db) && storable_create input then
    Returned (createCodeCheckpoint now db (create_input input))
  else Thrown.

(** [getCodeCheckpointById(id)] *)
Definition getCodeCheckpointById (db : database) (id : Q)
  : outcome (option row) :=
  match int4_of id with
  | Some z => Returned (getCodeCheckpointById db z)
  | None => Thrown
  end.

(** [updateCodeCheckpoint(input)]: with no key it selects; with keys it
    updates, and [.set] throws when every key holds [undefined].  Either
    statement raises on an [id] that is no [int4], the update also on a
    value that cannot be stored. *)
Definition updateCodeCheckpoint (db : database) (u : UpdateObject.t)
  : outcome (database * option row) :=
  if (0 <? keys u)%nat && (values u =? 0)%nat then Thrown
  else
    match int4_of (UpdateObject.id u) with
    | None => Thrown
    | Some id =>
        if storable_update u then
          Returned (updateCodeCheckpoint db (update_input id u))
        else Thrown
    end.

(** [deleteCodeCheckpoint(id)] *)
Definition deleteCodeCheckpoint (db : database) (id : Q)
  : outcome (database * bool) :=
  match int4_of id with
  | Some z => Returned (deleteCodeCheckpoint db z)
  | None => Thrown
  end.

(** [createCodeCheckpoint] of [server/src/index.ts]:
    [.input(createCodeCheckpointInputSchema).mutation(...)]. *)
Definition procedure_createCodeCheckpoint (now : Z) (db : database)
           (v : Zod.value) : database * response row :=
  match Zod.createCodeCheckpointInputSchema v with
  | Zod.Valid input =>
      match createCodeCheckpoint now db input with
      | Returned (db', checkpoint) => (db', Result checkpoint)
      | Thrown => (db, ServerError)
      end
  | Zod.Invalid issues => (db, BadRequest issues)
  end.

End Call.

(* ================================================================= *)
(** ** [server/src/index.ts]: a procedure validates, then calls the handler *)

Definition procedure_createCodeCheckpoint (now : Z) (db : database)
           (v : Zod.value) : database * Zod.result row :=
  match Zod.createCodeCheckpointInputSchema v with
  | Zod.Valid input =>
      let (db', checkpoint) := createCodeCheckpoint now db input in
      (db', Zod.Valid checkpoint)
  | Zod.Invalid issues => (db, Zod.Invalid issues)
  end.

Definition procedure_searchCodeCheckpoints {engine : StorageEngine}
           (db : database) (v : Zod.value) : Zod.result SearchResults.t :=
  match Zod.searchCodeCheckpointsInputSchema v with
  | Zod.Valid input => Zod.Valid (searchCodeCheckpoints db input)
  | Zod.Invalid issues => Zod.Invalid issues
  end.

(** The rows that satisfy the predicate of a search: the handler's
    [queryWithWhere], and what its count query counts. *)
Definition matching_set (db : database) (input : SearchInput.t) : list row :=
  apply_where (conditions input) (rows db).

(** The handler's [queryWithOrder]. *)
Definition ordered_matching_set {engine : StorageEngine}
           (db : database) (input : SearchInput.t) : list row :=
  match ranking_embedding input with
  | Some e => order_by (similarity_desc e) (matching_set db input)
  | None => order_by created_at_desc (matching_set db input)
  end.

(** Case-insensitive substring test, the reading of keyword search. *)
Definition contains_ci (text keyword : string) : bool :=
  Text.substringb (Text.lower (Text.chars keyword))
                  (Text.lower (Text.chars text)).

(** A keyword finds a match in a row: in the title, in the summary, or in
    the tag list rendered as text. *)
Definition keyword_found (r : row) (keyword : string) : bool :=
  contains_ci (CodeCheckpoint.title r) keyword
  || contains_ci (CodeCheckpoint.summary r) keyword
  || contains_ci (array_to_string (CodeCheckpoint.tags r)) keyword.

(* ================================================================= *)
(** ** Inputs that differ in one field *)

Local Open Scope string_scope.
Local Open Scope list_scope.

Definition with_limit (input : SearchInput.t) (n : nat) : SearchInput.t :=
  SearchInput.mk (SearchInput.query input) (SearchInput.keywords input)
    (SearchInput.programming_language input) (SearchInput.tags input)
    (SearchInput.embedding input) n (SearchInput.offset input).

Definition with_offset (input : SearchInput.t) (n : nat) : SearchInput.t :=
  SearchInput.mk (SearchInput.query input) (SearchInput.keywords input)
    (SearchInput.programming_language input) (SearchInput.tags input)
    (SearchInput.embedding input) (SearchInput.limit input) n.

Definition with_embedding (input : SearchInput.t) (e : option (list Q))
  : SearchInput.t :=
  SearchInput.mk (SearchInput.query input) (SearchInput.keywords input)
    (SearchInput.programming_language input) (SearchInput.tags input)
    e (SearchInput.limit input) (SearchInput.offset input).

Definition with_tags (input : SearchInput.t) (ts : option (list string))
  : SearchInput.t :=
  SearchInput.mk (SearchInput.query input) (SearchInput.keywords input)
    (SearchInput.programming_language input) ts
    (SearchInput.embedding input) (SearchInput.limit input)
    (SearchInput.offset input).

Definition with_keywords (input : SearchInput.t) (ks : option (list string))
  : SearchInput.t :=
  SearchInput.mk (SearchInput.query input) ks
    (SearchInput.programming_language input) (SearchInput.tags input)
    (SearchInput.embedding input) (SearchInput.limit input)
    (SearchInput.offset input).

(** [{ id, title }] and [{ id }] *)
Definition only_title (id : Z) (title : string) : UpdateInput.t :=
  UpdateInput.mk id (Some title) None None None None None None.





Definition ids (l : list row) : list Z := map CodeCheckpoint.id l.

(** The object a client sends to create a checkpoint; [tags] and
    [embedding] may be left out. *)
Definition create_payload (title summary code_snippet user_feedback
                           programming_language : string)
           (tags : option (list string)) (embedding : option (list Q))
  : Zod.value :=
  Zod.VObject
    ([("title", Zod.VString title); ("summary", Zod.VString summary);
      ("code_snippet", Zod.VString code_snippet);
      ("user_feedback", Zod.VString user_feedback);
      ("programming_language", Zod.VString programming_language)]
     ++ match tags with
        | Some g => [("tags", Zod.VArray (map Zod.VString g))]
        | None => []
        end
     ++ match embedding with
        | Some e => [("embedding", Zod.VArray (map Zod.VNumber e))]
        | None => []
        end).

(** The issues of a create payload, key by key. *)
Definition create_issues (title summary code_snippet user_feedback
                          programming_language : string)
           (embedding : option (list Q)) : list string :=
  (if truthy title then [] else ["title"])
  ++ (if truthy summary then [] else ["summary"])
  ++ (if truthy code_snippet then [] else ["code_snippet"])
  ++ (if truthy user_feedback then [] else ["user_feedback"])
  ++ (if truthy programming_language then [] else ["programming_language"])
  ++ match embedding with Some _ => [] | None => ["embedding"] end.

(* ================================================================= *)
(** ** The data of [tests/search_code_checkpoints.test.ts] *)

Definition tenths (l : list Z) : list Q := map (fun n => Qmake n 10) l.

(** [testCheckpoints]; the second code snippet is shortened. *)
Definition testCheckpoints : list CreateInput.t :=
  [ CreateInput.mk "React Hook Implementation"
      "Custom React hook for data fetching with TypeScript"
      "const useData = <T>(url: string): { data: T | null, loading: boolean } => { ... }"
      "Works great for API calls" "TypeScript"
      ["react"; "hooks"; "typescript"; "api"] 
      (tenths [1; 2; 3; 4; 5]%Z);
    CreateInput.mk "Python Data Processing"
      "Efficient pandas DataFrame manipulation for large datasets"
      "df = pd.read_csv(path).groupby(category).agg(total)"
      "Significantly improved performance" "Python"
      ["python"; "pandas"; "data-processing"] 
      (tenths [9; 8; 7; 6; 5]%Z);
    CreateInput.mk "JavaScript Array Methods"
      "Advanced array manipulation techniques using modern JavaScript"
      "const result = data.filter(item => item.active).map(item => ({ ...item, processed: true }))"
      "Clean and readable solution" "JavaScript"
      ["javascript"; "arrays"; "functional-programming"] 
      (tenths [2; 4; 6; 8; 10]%Z);
    CreateInput.mk "SQL Query Optimization"
      "Complex JOIN operations with proper indexing strategy"
      "SELECT u.name, COUNT(o.id) FROM users u LEFT JOIN orders o ON u.id = o.user_id GROUP BY u.id"
      "Query time reduced by 80%" "SQL"
      ["sql"; "optimization"; "joins"; "performance"] 
      (tenths [3; 1; 9; 2; 8]%Z) ].

Definition empty_db : database := mkdb [] 1.

(** [createTestCheckpoints]: one insert after the other, a millisecond
    apart. *)
Fixpoint insert_all (now : Z) (db : database) (inputs : list CreateInput.t)
  : database :=
  match inputs with
  | [] => db
  | input :: rest =>
      insert_all (now + 1000) (fst (createCodeCheckpoint now db input)) rest
  end.

Definition test_db : database := insert_all 1000 empty_db testCheckpoints.

(** Two rows written by one statement: [now()] is the same for both. *)
Definition same_instant_db : database :=
  mkdb [ CodeCheckpoint.mk 1 "First" "inserted first" "a" "ok" "Go"
           [] (tenths [5]%Z) 7000;
         CodeCheckpoint.mk 2 "Second" "inserted second" "b" "ok" "Go"
           [] (tenths [5]%Z) 7000 ] 3.

(** Two rows whose stored vectors differ by an element that the sum of
    the first one absorbs. *)
Definition rounding_db : database :=
  mkdb [ CodeCheckpoint.mk 1 "Short" "one element" "a" "ok" "Go"
           [] [inject_Z 16777216] 8000;
         CodeCheckpoint.mk 2 "Long" "two elements" "b" "ok" "Go"
           [] [inject_Z 16777216; inject_Z 1] 8000 ] 3.

(** [{ limit: 20, offset: 0 }] *)
Definition no_filters : SearchInput.t :=
  SearchInput.mk None None None None None 20 0.

(* ================================================================= *)
(** * Facts *)

(** ** Text *)

Lemma chars_append (a b : string) :
  Text.chars (a ++ b) = Text.chars a ++ Text.chars b.
Proof.
  induction a as [|c a IH]; simpl; [reflexivity|].
  unfold Text.chars in *. simpl. now rewrite IH.
Qed.

Lemma lower_app (a b : list ascii) :
  Text.lower (a ++ b) = Text.lower a ++ Text.lower b.
Proof. apply map_app. Qed.

Lemma plain_char_lower (c : ascii) :
  Text.plain_char (Text.lower_ascii c) = Text.plain_char c.
Proof. destruct c as [[] [] [] [] [] [] [] []]; reflexivity. Qed.

Lemma plain_lower (k : list ascii) :
  Text.plain (Text.lower k) = Text.plain k.
Proof.
  induction k as [|c k IH]; simpl; [reflexivity|].
  now rewrite plain_char_lower, IH.
Qed.

Lemma like_tokens_plain (k rest : list ascii) :
  Text.plain k = true ->
  Text.like_tokens (k ++ rest) = map Text.PLit k ++ Text.like_tokens rest.
Proof.
  induction k as [|c k IH]; simpl; intro H; [reflexivity|].
  apply andb_prop in H. destruct H as [Hc Hk].
  unfold Text.plain_char in Hc. apply negb_true_iff in Hc.
  apply orb_false_elim in Hc. destruct Hc as [Hc Hb].
  apply orb_false_elim in Hc. destruct Hc as [Hp Hu].
  rewrite Hb, Hp, Hu. now rewrite IH.
Qed.

Lemma like_match_any_unfold (ts : list Text.ptok) (s : list ascii) :
  Text.like_match (Text.PAny :: ts) s =
  Text.like_match ts s
  || match s with
     | [] => false
     | _ :: s' => Text.like_match (Text.PAny :: ts) s'
     end.
Proof. destruct s; reflexivity. Qed.

Lemma like_match_any_alone (s : list ascii) :
  Text.like_match [Text.PAny] s = true.
Proof.
  induction s as [|a s IH]; [reflexivity|].
  rewrite like_match_any_unfold, IH. apply orb_true_r.
Qed.

Lemma like_match_literals (k s : list ascii) :
  Text.like_match (map Text.PLit k ++ [Text.PAny]) s = Text.prefixb k s.
Proof.
  revert s. induction k as [|c k IH]; intro s.
  - simpl app. rewrite like_match_any_alone. now destruct s.
  - destruct s as [|a s]; simpl; [reflexivity|]. now rewrite IH.
Qed.

Lemma like_match_infix (k s : list ascii) :
  Text.like_match (Text.PAny :: map Text.PLit k ++ [Text.PAny]) s =
  Text.substringb k s.
Proof.
  induction s as [|a s IH].
  - rewrite like_match_any_unfold, like_match_literals. reflexivity.
  - rewrite like_match_any_unfold, like_match_literals, IH. reflexivity.
Qed.

Lemma lower_chars_wrap (k : string) :
  Text.lower (Text.chars (Text.wrap_percent k)) =
  Text.percent :: Text.lower (Text.chars k) ++ [Text.percent].
Proof.
  unfold Text.wrap_percent.
  change (Text.chars ("%" ++ k ++ "%")%string)
    with (Text.percent :: Text.chars (k ++ "%")%string).
  rewrite chars_append. simpl Text.lower. rewrite lower_app.
  reflexivity.
Qed.

(** For a keyword without [%], [_] and [\], [text ILIKE '%keyword%'] is
    the case-insensitive substring test. *)
Lemma ilike_plain_keyword (text k : string) :
  Text.plain (Text.chars k) = true ->
  Text.ilike text (Text.wrap_percent k) = contains_ci text k.
Proof.
  intro Hk. unfold Text.ilike, Text.like, contains_ci.
  rewrite lower_chars_wrap. simpl Text.like_tokens.
  rewrite like_tokens_plain by now rewrite plain_lower.
  apply like_match_infix.
Qed.

(** The handler's patterns never end in a lone escape character. *)
Lemma like_pattern_ok_app_percent (k : list ascii) :
  Text.like_pattern_ok (k ++ [Text.percent]) = true.
Proof.
  assert (H : forall n k, (List.length k <= n)%nat ->
              Text.like_pattern_ok (k ++ [Text.percent]) = true).
  { intro n. induction n as [|n IH]; intros l Hl.
    - destruct l; [reflexivity | simpl in Hl; lia].
    - destruct l as [|c l]; [reflexivity|]. simpl.
      destruct (Ascii.eqb c Text.backslash).
      + destruct l as [|d l]; [reflexivity|]. simpl.
        apply IH. simpl in Hl. lia.
      + apply IH. simpl in Hl. lia. }
  apply (H (List.length k)). lia.
Qed.

Lemma handler_pattern_ok (keyword : string) :
  Text.like_pattern_ok (Text.lower (Text.chars (Text.wrap_percent keyword)))
  = true.
Proof.
  rewrite lower_chars_wrap. simpl.
  apply like_pattern_ok_app_percent.
Qed.

Lemma prefixb_spec (k s : list ascii) :
  Text.prefixb k s = true <-> exists post, s = k ++ post.
Proof.
  revert s. induction k as [|a k IH]; intro s; simpl.
  - split; [intros _; now exists s | reflexivity].
  - destruct s as [|b s].
    + split; [discriminate | intros [post H]; discriminate].
    + rewrite andb_true_iff, Ascii.eqb_eq, IH. split.
      * intros [-> [post ->]]. now exists post.
      * intros [post H]. injection H as -> ->. split; [reflexivity|].
        now exists post.
Qed.

Lemma substringb_spec (k s : list ascii) :
  Text.substringb k s = true <-> Text.substring k s.
Proof.
  unfold Text.substring. induction s as [|b s IH]; simpl.
  - rewrite orb_false_r, prefixb_spec. split.
    + intros [post H]. now exists [], post.
    + intros [pre [post H]]. destruct pre; simpl in H.
      * now exists post.
      * discriminate.
  - rewrite orb_true_iff, prefixb_spec, IH. split.
    + intros [[post H] | [pre [post H]]].
      * now exists [], post.
      * exists (b :: pre), post. simpl. now rewrite H.
    + intros [pre [post H]]. destruct pre as [|c pre]; simpl in H.
      * left. now exists post.
      * right. injection H as _ H. now exists pre, post.
Qed.

(** ** Two storage engines *)

Section InsertionSort.

Variable before : row -> row -> bool.

Lemma insert_sorted_permutation (x : row) (l : list row) :
  Permutation (x :: l) (insert_sorted before x l).
Proof.
  induction l as [|y l IH]; simpl; [apply Permutation_refl|].
  destruct (before x y); [apply Permutation_refl|].
  eapply perm_trans; [apply perm_swap|]. now apply perm_skip.
Qed.

Lemma insertion_sort_permutation (l : list row) :
  Permutation l (insertion_sort before l).
Proof.
  induction l as [|x l IH]; simpl; [constructor|].
  eapply perm_trans; [apply perm_skip, IH|].
  apply insert_sorted_permutation.
Qed.

Hypothesis before_total : forall a b, before a b = true \/ before b a = true.
Hypothesis before_trans :
  forall a b c, before a b = true -> before b c = true -> before a c = true.

Lemma insert_sorted_sorted (x : row) (l : list row) :
  StronglySorted (fun a b => before a b = true) l ->
  StronglySorted (fun a b => before a b = true) (insert_sorted before x l).
Proof.
  induction 1 as [|y l Hs IH Hall]; simpl.
  - constructor; constructor.
  - destruct (before x y) eqn:Hxy.
    + constructor; [now constructor|].
      constructor; [exact Hxy|].
      eapply Forall_impl; [|exact Hall].
      intros z Hyz. now apply before_trans with y.
    + constructor; [exact IH|].
      eapply Permutation_Forall; [apply insert_sorted_permutation|].
      constructor; [|exact Hall].
      destruct (before_total x y) as [H|H]; [congruence | exact H].
Qed.

Lemma insertion_sort_sorted (l : list row) :
  StronglySorted (fun a b => before a b = true) (insertion_sort before l).
Proof.
  induction l as [|x l IH]; simpl; [constructor|].
  now apply insert_sorted_sorted.
Qed.

End InsertionSort.

(** Rows with equal keys stay in heap order. *)
Definition heap_order_engine : StorageEngine := {|
  order_by := insertion_sort;
  order_by_permutation := insertion_sort_permutation;
  order_by_sorted := fun before l Ht Hr => @insertion_sort_sorted before Ht Hr l
|}.

Lemma reverse_sort_permutation (before : row -> row -> bool) (l : list row) :
  Permutation l (insertion_sort before (rev l)).
Proof.
  eapply perm_trans; [apply Permutation_rev|].
  apply insertion_sort_permutation.
Qed.

(** Rows with equal keys come out in reverse heap order. *)
Definition reverse_heap_engine : StorageEngine := {|
  order_by := fun before l => insertion_sort before (rev l);
  order_by_permutation := reverse_sort_permutation;
  order_by_sorted :=
    fun before l Ht Hr => @insertion_sort_sorted before Ht Hr (rev l)
|}.

(** ** Lists: pages of a sorted list *)

Lemma StronglySorted_skipn {A} (R : A -> A -> Prop) (n : nat) (l : list A) :
  StronglySorted R l -> StronglySorted R (skipn n l).
Proof.
  revert l. induction n as [|n IH]; intros l H; [exact H|].
  destruct l as [|x l]; [constructor|]. simpl.
  apply IH. now inversion H.
Qed.

Lemma StronglySorted_firstn {A} (R : A -> A -> Prop) (n : nat) (l : list A) :
  StronglySorted R l -> StronglySorted R (firstn n l).
Proof.
  revert l. induction n as [|n IH]; intros l H; [constructor|].
  destruct l as [|x l]; [constructor|]. simpl.
  inversion H as [|? ? Hs Hall]; subst.
  constructor; [now apply IH|].
  rewrite Forall_forall in *. intros y Hy. apply Hall.
  rewrite <- (firstn_skipn n l). apply in_or_app. now left.
Qed.

Lemma format_result_id (r : row) : format_result r = r.
Proof. now destruct r. Qed.

Lemma map_format_result (l : list row) : map format_result l = l.
Proof.
  induction l as [|r l IH]; simpl; [reflexivity|].
  now rewrite format_result_id, IH.
Qed.

(** ** The predicate of a search *)

Lemma forallb_push_And (r : row) (cs : list condition) :
  forallb (fun c => holds c r) (push_combined And cs) =
  forallb (fun c => holds c r) cs.
Proof.
  destruct cs as [|c [|c' cs]]; simpl; try reflexivity.
  now rewrite !andb_true_r.
Qed.

Lemma forallb_push_Or (r : row) (cs : list condition) :
  cs <> [] ->
  forallb (fun c => holds c r) (push_combined Or cs) =
  existsb (fun c => holds c r) cs.
Proof.
  destruct cs as [|c [|c' cs]]; simpl; intro H.
  - contradiction.
  - now rewrite andb_true_r, orb_false_r.
  - now rewrite andb_true_r.
Qed.

Lemma apply_where_filter (cs : list condition) (table : list row) :
  apply_where cs table = filter (fun r => forallb (fun c => holds c r) cs) table.
Proof.
  destruct cs as [|c [|c' cs]]; simpl.
  - induction table as [|r t IH]; simpl; [reflexivity|]. now rewrite <- IH.
  - apply filter_ext. intro r. now rewrite andb_true_r.
  - reflexivity.
Qed.

Lemma matching_set_filter (db : database) (input : SearchInput.t) :
  matching_set db input = filter (matches input) (rows db).
Proof. apply apply_where_filter. Qed.

Lemma matches_split (input : SearchInput.t) (r : row) :
  matches input r =
  forallb (fun c => holds c r) (language_conditions input)
  && (forallb (fun c => holds c r) (tag_conditions input)
      && forallb (fun c => holds c r) (keyword_conditions input)).
Proof. unfold matches, conditions. now rewrite !forallb_app. Qed.

(** ** The similarity subquery *)

Lemma join_on_ord_nil_r (e : list (Q * nat)) : join_on_ord e [] = [].
Proof. induction e as [|er e IH]; simpl; [reflexivity | exact IH]. Qed.

Lemma ordinality_lower_bound (l : list Q) (j n : nat) (p : Q * nat) :
  In p (combine l (seq j n)) -> (j <= snd p)%nat.
Proof.
  destruct p as [x o]. intro H.
  apply in_combine_r in H. apply in_seq in H. simpl. lia.
Qed.

Lemma filter_ord_none (k j n : nat) (l : list Q) :
  (k < j)%nat ->
  filter (fun vr : Q * nat => Nat.eqb k (snd vr)) (combine l (seq j n)) = [].
Proof.
  intro Hkj.
  assert (H : forall p, In p (combine l (seq j n)) ->
                        Nat.eqb k (snd p) = false).
  { intros p Hp. apply ordinality_lower_bound in Hp.
    apply Nat.eqb_neq. lia. }
  induction (combine l (seq j n)) as [|p c IH]; simpl; [reflexivity|].
  rewrite (H p) by now left. apply IH. intros q Hq. apply H. now right.
Qed.

Lemma join_on_ord_skip (e v : list (Q * nat)) (y : Q * nat) :
  (forall er, In er e -> snd er <> snd y) ->
  join_on_ord e (y :: v) = join_on_ord e v.
Proof.
  induction e as [|er e IH]; intro H; simpl; [reflexivity|].
  assert (Hne : Nat.eqb (snd er) (snd y) = false).
  { apply Nat.eqb_neq. apply H. now left. }
  rewrite Hne. f_equal. apply IH. intros er' Hin. apply H. now right.
Qed.

Lemma join_on_ord_cons (er : Q * nat) (e v : list (Q * nat)) :
  join_on_ord (er :: e) v =
  map (fun vr => (er, vr)) (filter (fun vr => Nat.eqb (snd er) (snd vr)) v)
  ++ join_on_ord e v.
Proof. reflexivity. Qed.

Lemma join_products (e v : list Q) (k : nat) :
  map product_of
      (join_on_ord (combine e (seq k (List.length e)))
                   (combine v (seq k (List.length v)))) =
  map (fun p => Float4.mul (fst p) (snd p)) (combine e v).
Proof.
  revert v k. induction e as [|x e IH]; intros v k; [reflexivity|].
  destruct v as [|y v].
  - simpl combine. now rewrite join_on_ord_nil_r.
  - cbn [List.length seq combine]. rewrite join_on_ord_cons.
    rewrite join_on_ord_skip.
    + cbn [filter snd]. rewrite Nat.eqb_refl.
      change (fun vr : Q * nat => Nat.eqb (snd (x, k)) (snd vr))
        with (fun vr : Q * nat => Nat.eqb k (snd vr)).
      rewrite filter_ord_none by lia.
      cbn [map app combine]. f_equal. apply IH.
    + intros er Her. apply ordinality_lower_bound in Her. simpl. lia.
Qed.

Lemma float4_dot_from_fold (acc : Q) (a b : list Q) :
  float4_dot_from acc a b
  = fold_left Float4.add
      (map (fun p => Float4.mul (fst p) (snd p))
           (combine (real_array a) (real_array b))) acc.
Proof.
  revert acc b. induction a as [|x a IH]; intros acc b; [reflexivity|].
  destruct b as [|y b]; [reflexivity|]. simpl. apply IH.
Qed.

(** The subquery computes the dot product of the stored and the query
    vector in the arithmetic of [real]. *)
Lemma similarity_float4_dot_product (query_embedding stored : list Q) :
  similarity query_embedding stored
  = float4_dot_product stored query_embedding.
Proof.
  unfold similarity, unnest_with_ordinality. rewrite join_products.
  destruct stored as [|x a]; [reflexivity|].
  destruct query_embedding as [|y b]; [reflexivity|].
  simpl. symmetry. apply float4_dot_from_fold.
Qed.

Lemma float4_dot_from_common_prefix (acc : Q) (a b : list Q) :
  let n := Nat.min (List.length a) (List.length b) in
  float4_dot_from acc a b = float4_dot_from acc (firstn n a) (firstn n b).
Proof.
  revert acc b. induction a as [|x a IH]; intros acc b; [reflexivity|].
  destruct b as [|y b]; [reflexivity|]. simpl. apply IH.
Qed.

Lemma float4_dot_product_common_prefix (a b : list Q) :
  let n := Nat.min (List.length a) (List.length b) in
  float4_dot_product a b = float4_dot_product (firstn n a) (firstn n b).
Proof.
  destruct a as [|x a]; [reflexivity|].
  destruct b as [|y b]; [reflexivity|]. simpl.
  apply float4_dot_from_common_prefix.
Qed.

Lemma similarity_desc_total (q : list Q) (a b : row) :
  similarity_desc q a b = true \/ similarity_desc q b a = true.
Proof.
  unfold similarity_desc. rewrite !Qle_bool_iff.
  destruct (Qlt_le_dec (similarity q (CodeCheckpoint.embedding a))
                       (similarity q (CodeCheckpoint.embedding b))) as [H|H].
  - right. now apply Qlt_le_weak.
  - now left.
Qed.

Lemma similarity_desc_trans (q : list Q) (a b c : row) :
  similarity_desc q a b = true -> similarity_desc q b c = true ->
  similarity_desc q a c = true.
Proof.
  unfold similarity_desc. rewrite !Qle_bool_iff. intros H1 H2.
  eapply Qle_trans; eassumption.
Qed.

Lemma created_at_desc_total (a b : row) :
  created_at_desc a b = true \/ created_at_desc b a = true.
Proof. unfold created_at_desc. rewrite !Z.leb_le. lia. Qed.

Lemma created_at_desc_trans (a b c : row) :
  created_at_desc a b = true -> created_at_desc b c = true ->
  created_at_desc a c = true.
Proof. unfold created_at_desc. rewrite !Z.leb_le. lia. Qed.

Lemma StronglySorted_weaken {A} (R S : A -> A -> Prop) (l : list A) :
  (forall a b, R a b -> S a b) -> StronglySorted R l -> StronglySorted S l.
Proof.
  intros HRS. induction 1 as [|x l Hs IH Hall]; constructor; [exact IH|].
  eapply Forall_impl; [|exact Hall]. intros b. apply HRS.
Qed.

(** ** The search handler, piece by piece *)

Section SearchFacts.

Context {engine : StorageEngine}.

Lemma search_results (db : database) (input : SearchInput.t) :
  SearchResults.results (searchCodeCheckpoints db input) =
  firstn (SearchInput.limit input)
         (skipn (SearchInput.offset input) (ordered_matching_set db input)).
Proof.
  unfold searchCodeCheckpoints, ordered_matching_set, matching_set.
  cbn [SearchResults.results]. rewrite map_format_result.
  now destruct (ranking_embedding input).
Qed.

Lemma search_total (db : database) (input : SearchInput.t) :
  SearchResults.total (searchCodeCheckpoints db input) =
  List.length (matching_set db input).
Proof.
  unfold searchCodeCheckpoints, matching_set. cbn [SearchResults.total].
  destruct (List.length _ =? 0)%nat eqn:H; [|reflexivity].
  apply Nat.eqb_eq in H. now rewrite H.
Qed.

Lemma search_has_more (db : database) (input : SearchInput.t) :
  SearchResults.has_more (searchCodeCheckpoints db input) =
  (SearchInput.offset input + SearchInput.limit input
   <? SearchResults.total (searchCodeCheckpoints db input))%nat.
Proof. reflexivity. Qed.

Lemma ordered_matching_set_permutation (db : database) (input : SearchInput.t) :
  Permutation (matching_set db input) (ordered_matching_set db input).
Proof.
  unfold ordered_matching_set.
  destruct (ranking_embedding input); apply order_by_permutation.
Qed.

End SearchFacts.

(* ================================================================= *)
(** * The claims *)

Section SearchClaims.

Context {engine : StorageEngine}.

Lemma page_sorted (R : row -> row -> Prop) (limit offset : nat) (l : list row) :
  StronglySorted R l -> StronglySorted R (firstn limit (skipn offset l)).
Proof. intro H. now apply StronglySorted_firstn, StronglySorted_skipn. Qed.

Lemma newest_first_sorted (table : list row) :
  StronglySorted
    (fun a b => (CodeCheckpoint.created_at b <= CodeCheckpoint.created_at a)%Z)
    (order_by created_at_desc table).
Proof.
  eapply StronglySorted_weaken;
    [| apply order_by_sorted;
       [apply created_at_desc_total | apply created_at_desc_trans]].
  intros a b H. now apply Z.leb_le.
Qed.

Lemma best_score_first_sorted (e : list Q) (table : list row) :
  StronglySorted
    (fun a b => (float4_dot_product (CodeCheckpoint.embedding b) e
                 <= float4_dot_product (CodeCheckpoint.embedding a) e)%Q)
    (order_by (similarity_desc e) table).
Proof.
  eapply StronglySorted_weaken;
    [| apply order_by_sorted;
       [apply similarity_desc_total | apply similarity_desc_trans]].
  intros a b H. unfold similarity_desc in H. apply Qle_bool_iff in H.
  now rewrite !similarity_float4_dot_product in H.
Qed.

(** C1, as the code has it.  The handler, given [limit = 0], returns no
    row, a [total] that is the number of all rows matching the filters,
    and [has_more = (offset < total)]: true at offset 0 when a row
    matches, false once the offset reaches the total.  The procedure's
    input schema wants [limit] to be a positive integer: an object whose
    [limit] is zero is turned down with an issue on [limit], and the
    handler does not run. *)
Theorem limit_zero_handler_and_schema
        (db : database) (input : SearchInput.t)
        (fields : list (string * Zod.value)) (d : positive) :
  let r := searchCodeCheckpoints db (with_limit input 0) in
  let payload := Zod.VObject (("limit", Zod.VNumber (0 # d)) :: fields) in
  SearchResults.results r = []
  /\ SearchResults.total r = List.length (filter (matches input) (rows db))
  /\ SearchResults.has_more r
     = (SearchInput.offset input <? SearchResults.total r)%nat
  /\ exists issues,
       procedure_searchCodeCheckpoints db payload = Zod.Invalid issues
       /\ In "limit" issues.
Proof.
  cbv zeta. split; [|split; [|split]].
  - now rewrite search_results.
  - rewrite search_total, matching_set_filter. reflexivity.
  - rewrite search_has_more. cbn [with_limit SearchInput.offset SearchInput.limit].
    now rewrite Nat.add_0_r.
  - unfold procedure_searchCodeCheckpoints, Zod.searchCodeCheckpointsInputSchema.
    cbv zeta.
    assert (Hl : Zod.field "limit" (Zod.z_default Zod.z_int_positive 20%nat)
                           (("limit", Zod.VNumber (0 # d)) :: fields)
                 = inr "limit") by reflexivity.
    rewrite Hl.
    destruct (Zod.field "query" _ _), (Zod.field "keywords" _ _),
             (Zod.field "programming_language" _ _), (Zod.field "tags" _ _),
             (Zod.field "embedding" _ _);
      (eexists; split; [reflexivity|]);
      rewrite ?in_app_iff; simpl; tauto.
Qed.

(** C1 as stated fails twice: the schema turns [limit: 0] down, and the
    handler, at offset 4 on the four test rows, reports [total = 4] with
    [has_more = false]. *)
Lemma limit_zero_counterexample :
  Zod.searchCodeCheckpointsInputSchema
    (Zod.VObject [("limit", Zod.VNumber 0)]) = Zod.Invalid ["limit"]
  /\ (let r := @searchCodeCheckpoints heap_order_engine test_db
                 (SearchInput.mk None None None None None 0 4) in
      SearchResults.results r = []
      /\ SearchResults.total r = 4%nat
      /\ SearchResults.has_more r = false).
Proof. vm_compute. repeat split. Qed.

(** C2, as the code has it.  With no embedding, or an empty one, the
    results are the page [offset, offset + limit) of the matching rows
    ordered by [created_at] descending.  The query names no second key:
    where two rows have the same [created_at], their order is the
    storage's. *)
Theorem recency_order_without_embedding
        (db : database) (input : SearchInput.t) :
  let newest_first := fun a b : row =>
    (CodeCheckpoint.created_at b <= CodeCheckpoint.created_at a)%Z in
  let absent := searchCodeCheckpoints db (with_embedding input None) in
  let empty := searchCodeCheckpoints db (with_embedding input (Some [])) in
  StronglySorted newest_first (SearchResults.results absent)
  /\ SearchResults.results empty = SearchResults.results absent
  /\ SearchResults.results absent
     = firstn (SearchInput.limit input)
         (skipn (SearchInput.offset input)
            (order_by created_at_desc (matching_set db input)))
  /\ Permutation (matching_set db input)
       (order_by created_at_desc (matching_set db input)).
Proof.
  cbv zeta. rewrite !search_results.
  split; [|split; [|split]].
  - apply page_sorted, newest_first_sorted.
  - reflexivity.
  - reflexivity.
  - apply order_by_permutation.
Qed.

(** C6, as the code has it.  With a non-empty query embedding the results
    are the page [offset, offset + limit) of the matching rows ordered by
    descending score.  The score of a row is the dot product of its
    stored embedding with the query vector as the storage computes it on
    [real] values: position by position the product of the corresponding
    elements, each product and each partial sum rounded to a 4-byte
    float.  Rows whose scores come out equal are in the storage's
    order. *)
Theorem similarity_order_with_embedding
        (db : database) (input : SearchInput.t) (x : Q) (q : list Q) :
  let e := x :: q in
  let score :=
    fun r : row => float4_dot_product (CodeCheckpoint.embedding r) e in
  let r := searchCodeCheckpoints db (with_embedding input (Some e)) in
  StronglySorted (fun a b => (score b <= score a)%Q) (SearchResults.results r)
  /\ SearchResults.results r
     = firstn (SearchInput.limit input)
         (skipn (SearchInput.offset input)
            (order_by (similarity_desc e) (matching_set db input)))
  /\ Permutation (matching_set db input)
       (order_by (similarity_desc e) (matching_set db input))
  /\ forall stored : list Q,
       similarity e stored = float4_dot_product stored e.
Proof.
  cbv zeta. rewrite !search_results.
  split; [|split; [|split]].
  - apply page_sorted, best_score_first_sorted.
  - reflexivity.
  - apply order_by_permutation.
  - intro stored. apply similarity_float4_dot_product.
Qed.

End SearchClaims.

(** C2 as stated fails: two rows written in the same instant come back in
    the order of their insertion from an engine that keeps the order of
    the table among equal keys; once the first of them has been updated,
    the same engine returns the row inserted second first, the two
    [created_at] still equal. *)
Lemma tie_order_counterexample :
  let before :=
    @searchCodeCheckpoints heap_order_engine same_instant_db no_filters in
  let updated :=
    fst (updateCodeCheckpoint same_instant_db (only_title 1 "Renamed")) in
  let after := @searchCodeCheckpoints heap_order_engine updated no_filters in
  ids (SearchResults.results before) = [1; 2]%Z
  /\ ids (SearchResults.results after) = [2; 1]%Z
  /\ map CodeCheckpoint.created_at (SearchResults.results after)
     = [7000; 7000]%Z.
Proof. vm_compute. repeat split. Qed.

(** C6 as stated fails: with the query [[1, 1]], the row that stores
    [[16777216, 1]] has the larger sum of products, 16777217 against
    16777216, and yet is returned second: in the arithmetic of [real] the
    two sums are the same number, and the rows come back in the order of
    the table. *)
Lemma similarity_rounding_counterexample :
  let q := [inject_Z 1; inject_Z 1] in
  let r := @searchCodeCheckpoints heap_order_engine rounding_db
             (with_embedding no_filters (Some q)) in
  ids (SearchResults.results r) = [1; 2]%Z
  /\ map (fun x => Qred (dot_product (CodeCheckpoint.embedding x) q))
         (SearchResults.results r)
     = [inject_Z 16777216; inject_Z 16777217]
  /\ map (fun x => Qred (similarity q (CodeCheckpoint.embedding x)))
         (SearchResults.results r)
     = [inject_Z 16777216; inject_Z 16777216].
Proof. vm_compute. repeat split. Qed.

(** ** Pages *)

Section PageClaims.

Context {engine : StorageEngine}.

Lemma ordered_matching_set_with_offset
      (db : database) (input : SearchInput.t) (o : nat) :
  ordered_matching_set db (with_offset input o) = ordered_matching_set db input.
Proof. reflexivity. Qed.

Lemma matching_set_no_conditions (db : database) (input : SearchInput.t) :
  conditions input = [] -> matching_set db input = rows db.
Proof. unfold matching_set. now intros ->. Qed.

(** C7.  For every store and input, [total] is the number of rows that
    satisfy the predicate, whatever [limit] and [offset] are, and
    [has_more] is [offset + limit < total].  On a store of four rows,
    with no filter and [limit = 2], [has_more] is true at offset 0 and
    false at offset 2, each page has two rows, and no id is on both
    pages. *)
Theorem has_more_and_disjoint_pages (db : database) (input : SearchInput.t) :
  primary_key db ->
  List.length (rows db) = 4%nat ->
  conditions input = [] ->
  SearchInput.limit input = 2%nat ->
  let first_page := searchCodeCheckpoints db (with_offset input 0) in
  let second_page := searchCodeCheckpoints db (with_offset input 2) in
  (forall (db' : database) (input' : SearchInput.t) (l o : nat),
      let r := searchCodeCheckpoints db' (with_limit (with_offset input' o) l) in
      SearchResults.total r = List.length (filter (matches input') (rows db'))
      /\ SearchResults.has_more r = (o + l <? SearchResults.total r)%nat)
  /\ SearchResults.has_more first_page = true
  /\ SearchResults.has_more second_page = false
  /\ List.length (SearchResults.results first_page) = 2%nat
  /\ List.length (SearchResults.results second_page) = 2%nat
  /\ (forall i, In i (ids (SearchResults.results first_page)) ->
                ~ In i (ids (SearchResults.results second_page))).
Proof.
  intros Hpk Hlen Hcs Hlim. cbv zeta.
  split.
  { intros db' input' l o. cbv zeta. split.
    - rewrite search_total, matching_set_filter. reflexivity.
    - apply search_has_more. }
  assert (Htotal : forall o,
             SearchResults.total (searchCodeCheckpoints db (with_offset input o))
             = 4%nat).
  { intro o. rewrite search_total.
    change (matching_set db (with_offset input o)) with (matching_set db input).
    now rewrite matching_set_no_conditions. }
  pose proof (ordered_matching_set_permutation db input) as Hperm.
  rewrite (@matching_set_no_conditions db input Hcs) in Hperm.
  assert (Hnodup : NoDup (ids (ordered_matching_set db input))).
  { eapply Permutation_NoDup; [|exact Hpk]. now apply Permutation_map. }
  pose proof (Permutation_length Hperm) as HlenL. rewrite Hlen in HlenL.
  rewrite !search_has_more, !Htotal, !search_results,
          !ordered_matching_set_with_offset.
  cbn [with_offset SearchInput.offset SearchInput.limit]. rewrite Hlim.
  destruct (ordered_matching_set db input) as [|a [|b [|c [|d [|x L]]]]];
    try discriminate HlenL.
  split; [reflexivity|]. split; [reflexivity|].
  split; [reflexivity|]. split; [reflexivity|].
  intros i Hi Hj. simpl in Hi, Hj, Hnodup.
  inversion Hnodup as [|? ? Ha Hn1]; subst.
  inversion Hn1 as [|? ? Hb Hn2]; subst.
  simpl in Ha, Hb.
  destruct Hi as [Hi|[Hi|[]]]; destruct Hj as [Hj|[Hj|[]]]; subst i;
    solve [apply Ha; rewrite Hj; tauto | apply Hb; rewrite Hj; tauto].
Qed.

End PageClaims.

Lemma has_more_and_disjoint_pages_witness :
  let input := with_limit no_filters 2 in
  let first_page := @searchCodeCheckpoints heap_order_engine test_db
                      (with_offset input 0) in
  let second_page := @searchCodeCheckpoints heap_order_engine test_db
                       (with_offset input 2) in
  primary_key test_db
  /\ List.length (rows test_db) = 4%nat
  /\ conditions input = []
  /\ SearchInput.limit input = 2%nat
  /\ SearchResults.has_more first_page = true
  /\ SearchResults.has_more second_page = false
  /\ (forall i, In i (ids (SearchResults.results first_page)) ->
                ~ In i (ids (SearchResults.results second_page))).
Proof.
  cbv zeta.
  assert (Hpk : primary_key test_db).
  { unfold primary_key. vm_compute.
    repeat constructor; simpl; intuition discriminate. }
  destruct (@has_more_and_disjoint_pages heap_order_engine test_db
              (with_limit no_filters 2) Hpk eq_refl eq_refl eq_refl)
    as (_ & H0 & H2 & _ & _ & Hd).
  exact (conj Hpk (conj eq_refl (conj eq_refl (conj eq_refl
           (conj H0 (conj H2 Hd)))))).
Defined.

(** ** Filters *)

Lemma filter_all {A} (l : list A) : filter (fun _ => true) l = l.
Proof. induction l as [|x l IH]; simpl; [reflexivity | now rewrite IH]. Qed.

Lemma array_contains_In (tags : list string) (tag : string) :
  array_contains tags tag = true <-> In tag tags.
Proof.
  unfold array_contains. rewrite existsb_exists. split.
  - intros [x [Hin Heq]]. apply String.eqb_eq in Heq. now subst.
  - intro Hin. exists tag. split; [exact Hin | apply String.eqb_refl].
Qed.

Lemma tag_conditions_hold (input : SearchInput.t) (t : string)
      (ts : list string) (r : row) :
  forallb (fun c => holds c r) (tag_conditions (with_tags input (Some (t :: ts))))
  = existsb (array_contains (CodeCheckpoint.tags r)) (t :: ts).
Proof.
  unfold tag_conditions.
  cbn [with_tags SearchInput.tags List.length Nat.ltb Nat.leb].
  rewrite filter_all, forallb_push_Or by discriminate.
  induction (t :: ts) as [|x l IH]; simpl; [reflexivity | now rewrite IH].
Qed.

Lemma keyword_conditions_hold (input : SearchInput.t) (k : string)
      (ks : list string) (r : row) :
  forallb (fun c => holds c r)
          (keyword_conditions (with_keywords input (Some (k :: ks))))
  = forallb (fun kw => holds (keyword_condition kw) r) (k :: ks).
Proof.
  unfold keyword_conditions.
  cbn [with_keywords SearchInput.keywords List.length Nat.ltb Nat.leb].
  rewrite forallb_push_And.
  induction (k :: ks) as [|x l IH]; [reflexivity|].
  cbn [map forallb]. now rewrite IH.
Qed.

Lemma keyword_condition_plain (kw : string) (r : row) :
  Text.plain (Text.chars kw) = true ->
  holds (keyword_condition kw) r = keyword_found r kw.
Proof.
  intro Hp. unfold keyword_condition, keyword_found.
  cbn [holds existsb]. rewrite !ilike_plain_keyword by exact Hp.
  now rewrite orb_false_r, orb_assoc.
Qed.

(** C5.  With a non-empty [tags] filter, a stored row whose other filters
    hold is in the matching set exactly when its tag list has one of the
    requested tags as an element; the matching set is what [total]
    counts. *)
Theorem tags_filter_exact_membership
        (db : database) (input : SearchInput.t)
        (t : string) (ts : list string) (r : row) :
  let requested := t :: ts in
  let input' := with_tags input (Some requested) in
  let other_filters :=
    forallb (fun c => holds c r)
            (language_conditions input ++ keyword_conditions input) in
  (In r (matching_set db input')
   <-> In r (rows db) /\ other_filters = true
       /\ exists tag, In tag requested /\ In tag (CodeCheckpoint.tags r))
  /\ forall engine : StorageEngine,
       SearchResults.total (searchCodeCheckpoints db input')
       = List.length (matching_set db input').
Proof.
  cbv zeta. split; [|intro engine; apply search_total].
  rewrite matching_set_filter, filter_In, matches_split.
  rewrite tag_conditions_hold, forallb_app.
  change (language_conditions (with_tags input (Some (t :: ts))))
    with (language_conditions input).
  change (keyword_conditions (with_tags input (Some (t :: ts))))
    with (keyword_conditions input).
  rewrite !andb_true_iff, existsb_exists.
  split.
  - intros [Hin [Hl [[tag [Ht Hc]] Hk]]].
    apply array_contains_In in Hc. eauto 8.
  - intros [Hin [[Hl Hk] [tag [Ht Hc]]]].
    apply array_contains_In in Hc. eauto 8.
Qed.

(** For keywords without [%], [_] and [\]: a stored row whose other
    filters hold is in the matching set exactly when every keyword is
    found, case-insensitively, in the title, in the summary or in the
    tag list joined by spaces. *)
Lemma keywords_filter_plain
      (db : database) (input : SearchInput.t)
      (k : string) (ks : list string) (r : row) :
  forallb (fun kw => Text.plain (Text.chars kw)) (k :: ks) = true ->
  (In r (matching_set db (with_keywords input (Some (k :: ks))))
   <-> In r (rows db)
       /\ forallb (fun c => holds c r)
                  (language_conditions input ++ tag_conditions input) = true
       /\ forallb (keyword_found r) (k :: ks) = true).
Proof.
  intro Hplain.
  rewrite matching_set_filter, filter_In, matches_split.
  rewrite keyword_conditions_hold, forallb_app.
  change (language_conditions (with_keywords input (Some (k :: ks))))
    with (language_conditions input).
  change (tag_conditions (with_keywords input (Some (k :: ks))))
    with (tag_conditions input).
  assert (Heq : forallb (fun kw => holds (keyword_condition kw) r) (k :: ks)
                = forallb (keyword_found r) (k :: ks)).
  { induction (k :: ks) as [|x l IH]; [reflexivity|].
    cbn [forallb] in *. apply andb_prop in Hplain. destruct Hplain as [Hx Hl].
    now rewrite keyword_condition_plain, IH. }
  rewrite Heq, !andb_true_iff. tauto.
Qed.

(** C4 at a failing input.  The keyword [_] occurs in no title, summary
    or tag of the four test rows, yet the search for it counts all four:
    the handler puts the keyword into the [ILIKE] pattern as it is, where
    [_] stands for any one character.  The same with [j_v_script], which
    finds the JavaScript row. *)
Theorem keyword_wildcards_not_escaped :
  let underscore := with_keywords no_filters (Some ["_"]) in
  let letters := with_keywords no_filters (Some ["j_v_script"]) in
  forallb (fun r => negb (keyword_found r "_")) (rows test_db) = true
  /\ SearchResults.total
       (@searchCodeCheckpoints heap_order_engine test_db underscore) = 4%nat
  /\ forallb (fun r => negb (keyword_found r "j_v_script")) (rows test_db) = true
  /\ map CodeCheckpoint.title
         (SearchResults.results
            (@searchCodeCheckpoints heap_order_engine test_db letters))
     = ["JavaScript Array Methods"].
Proof. vm_compute. repeat split. Qed.

(** ** Validation of a new checkpoint *)

Lemma parse_items_strings (g : list string) :
  Zod.parse_items Zod.z_string (map Zod.VString g) = Some g.
Proof. induction g as [|s g IH]; simpl; [reflexivity | now rewrite IH]. Qed.

Lemma parse_items_numbers (e : list Q) :
  Zod.parse_items Zod.z_number (map Zod.VNumber e) = Some e.
Proof. induction e as [|q e IH]; simpl; [reflexivity | now rewrite IH]. Qed.

Lemma z_string_min1_truthy (s : string) :
  Zod.z_string_min1 (Zod.VString s) = if truthy s then Some s else None.
Proof. now destruct s. Qed.



(** ** Update and delete *)

Lemma getCodeCheckpointById_hd (db : database) (id : Z) :
  getCodeCheckpointById db id = hd_error (filter (holds (EqId id)) (rows db)).
Proof.
  unfold getCodeCheckpointById.
  destruct (filter _ (rows db)); [reflexivity|]. simpl.
  now rewrite format_result_id.
Qed.

Lemma hd_error_map {A B} (f : A -> B) (l : list A) :
  hd_error (map f l) = option_map f (hd_error l).
Proof. now destruct l. Qed.

Lemma filter_id_after_delete (i d : Z) (table : list row) :
  filter (holds (EqId i)) (filter (fun r => negb (holds (EqId d) r)) table)
  = if Z.eqb i d then [] else filter (holds (EqId i)) table.
Proof.
  induction table as [|r t IH]; cbn [filter].
  - now destruct (Z.eqb i d).
  - destruct (holds (EqId d) r) eqn:Hd; cbn [negb filter]; rewrite IH.
    + simpl in Hd. apply Z.eqb_eq in Hd.
      destruct (Z.eqb_spec i d) as [Hi|Hi]; [reflexivity|].
      assert (H : holds (EqId i) r = false)
        by (simpl; apply Z.eqb_neq; congruence).
      now rewrite H.
    + simpl in Hd. apply Z.eqb_neq in Hd.
      destruct (Z.eqb_spec i d) as [Hi|Hi]; [|reflexivity].
      assert (H : holds (EqId i) r = false)
        by (simpl; apply Z.eqb_neq; congruence).
      now rewrite H.
Qed.

Lemma filter_negb_twice {A} (f : A -> bool) (l : list A) :
  filter (fun x => negb (f x)) (filter (fun x => negb (f x)) l)
  = filter (fun x => negb (f x)) l.
Proof.
  induction l as [|x l IH]; simpl; [reflexivity|].
  destruct (f x) eqn:H; simpl; [exact IH|]. now rewrite H, IH.
Qed.

Lemma filter_id_map (i : Z) (f : row -> row) (l : list row) :
  (forall r, CodeCheckpoint.id (f r) = CodeCheckpoint.id r) ->
  filter (holds (EqId i)) (map f l) = map f (filter (holds (EqId i)) l).
Proof.
  intro Hf. induction l as [|r l IH]; [reflexivity|].
  cbn [map filter]. rewrite IH.
  assert (H : holds (EqId i) (f r) = holds (EqId i) r)
    by (simpl; now rewrite Hf).
  rewrite H. now destruct (holds (EqId i) r).
Qed.

Lemma filter_filter_same {A} (f : A -> bool) (l : list A) :
  filter f (filter f l) = filter f l.
Proof.
  induction l as [|x l IH]; simpl; [reflexivity|].
  destruct (f x) eqn:H; simpl; [|exact IH]. now rewrite H, IH.
Qed.

Lemma filter_updated_same (id : Z) (f : row -> row) (table : list row) :
  (forall r, CodeCheckpoint.id (f r) = CodeCheckpoint.id r) ->
  filter (holds (EqId id)) (fst (sql_update (EqId id) f table))
  = map f (filter (holds (EqId id)) table).
Proof.
  intro Hf. unfold sql_update. cbn [fst].
  rewrite filter_app, filter_id_after_delete, Z.eqb_refl.
  cbn [app]. rewrite filter_id_map by exact Hf.
  now rewrite filter_filter_same.
Qed.

Lemma filter_updated_other (id j : Z) (f : row -> row) (table : list row) :
  (forall r, CodeCheckpoint.id (f r) = CodeCheckpoint.id r) ->
  j <> id ->
  filter (holds (EqId j)) (fst (sql_update (EqId id) f table))
  = filter (holds (EqId j)) table.
Proof.
  intros Hf Hj. unfold sql_update. cbn [fst].
  rewrite filter_app, filter_id_after_delete.
  apply Z.eqb_neq in Hj. rewrite Hj.
  rewrite filter_id_map by exact Hf.
  assert (H : filter (holds (EqId j)) (filter (holds (EqId id)) table) = []).
  { induction table as [|r t IH]; [reflexivity|].
    cbn [filter]. destruct (holds (EqId id) r) eqn:Hr; [|exact IH].
    cbn [filter]. rewrite IH.
    simpl in Hr. apply Z.eqb_eq in Hr. simpl. rewrite Hr.
    rewrite Z.eqb_sym. now rewrite Hj. }
  rewrite H. apply app_nil_r.
Qed.

Lemma sql_update_permutation (c : condition) (f : row -> row)
      (table : list row) :
  Permutation (map (fun r => if holds c r then f r else r) table)
              (fst (sql_update c f table)).
Proof.
  unfold sql_update. cbn [fst].
  induction table as [|r t IH]; [constructor|].
  cbn [map filter]. destruct (holds c r); cbn [negb map].
  - now apply Permutation_cons_app.
  - cbn [app]. now constructor.
Qed.

Lemma set_fields_nothing (input : UpdateInput.t) (r : row) :
  update_keys input = 0%nat -> set_fields input r = r.
Proof.
  destruct input as [i [t|] [s|] [c|] [u|] [p|] [g|] [e|]], r;
    simpl; intro H; try discriminate H; reflexivity.
Qed.

Lemma map_unchanged (id : Z) (f : row -> row) (table : list row) :
  (forall r, f r = r) ->
  map (fun r => if holds (EqId id) r then f r else r) table = table.
Proof.
  intro Hf. induction table as [|r t IH]; [reflexivity|].
  cbn [map]. rewrite IH, Hf. now destruct (holds (EqId id) r).
Qed.

(** The two statements of [updateCodeCheckpoint]. *)
Lemma updateCodeCheckpoint_shape (db : database) (input : UpdateInput.t) :
  updateCodeCheckpoint db input
  = if (update_keys input =? 0)%nat
    then (db, hd_error (filter (holds (EqId (UpdateInput.id input))) (rows db)))
    else (mkdb (fst (sql_update (EqId (UpdateInput.id input))
                                (set_fields input) (rows db)))
               (id_seq db),
          hd_error (map (set_fields input)
                        (filter (holds (EqId (UpdateInput.id input)))
                                (rows db)))).
Proof.
  unfold updateCodeCheckpoint. destruct (update_keys input =? 0)%nat.
  - now destruct (filter _ (rows db)).
  - unfold sql_update. cbn [fst]. now destruct (map (set_fields input) _).
Qed.

Lemma update_returned (db : database) (input : UpdateInput.t) :
  snd (updateCodeCheckpoint db input)
  = option_map (set_fields input)
               (getCodeCheckpointById db (UpdateInput.id input)).
Proof.
  rewrite updateCodeCheckpoint_shape, getCodeCheckpointById_hd.
  destruct (update_keys input =? 0)%nat eqn:Hk; cbn [snd].
  - apply Nat.eqb_eq in Hk.
    destruct (filter _ (rows db)) as [|r t]; [reflexivity|].
    simpl. now rewrite set_fields_nothing.
  - apply hd_error_map.
Qed.

Lemma update_lookup_same (db : database) (input : UpdateInput.t) :
  getCodeCheckpointById (fst (updateCodeCheckpoint db input))
                        (UpdateInput.id input)
  = snd (updateCodeCheckpoint db input).
Proof.
  rewrite updateCodeCheckpoint_shape, getCodeCheckpointById_hd.
  destruct (update_keys input =? 0)%nat; cbn [fst snd rows]; [reflexivity|].
  now rewrite filter_updated_same.
Qed.

Lemma update_lookup_other (db : database) (input : UpdateInput.t) (j : Z) :
  j <> UpdateInput.id input ->
  getCodeCheckpointById (fst (updateCodeCheckpoint db input)) j
  = getCodeCheckpointById db j.
Proof.
  intro Hj. rewrite updateCodeCheckpoint_shape, !getCodeCheckpointById_hd.
  destruct (update_keys input =? 0)%nat; cbn [fst rows]; [reflexivity|].
  now rewrite filter_updated_other.
Qed.

Lemma update_id_seq (db : database) (input : UpdateInput.t) :
  id_seq (fst (updateCodeCheckpoint db input)) = id_seq db.
Proof.
  rewrite updateCodeCheckpoint_shape.
  now destruct (update_keys input =? 0)%nat.
Qed.


Lemma update_rows_permutation (db : database) (input : UpdateInput.t) :
  Permutation
    (map (fun r => if holds (EqId (UpdateInput.id input)) r
                   then set_fields input r else r) (rows db))
    (rows (fst (updateCodeCheckpoint db input))).
Proof.
  rewrite updateCodeCheckpoint_shape.
  destruct (update_keys input =? 0)%nat eqn:Hk; cbn [fst rows].
  - apply Nat.eqb_eq in Hk. rewrite map_unchanged; [reflexivity|].
    intro r. now apply set_fields_nothing.
  - apply sql_update_permutation.
Qed.

(** *** Numbers as ids *)

Lemma int4_of_inject_Z (z : Z) :
  is_int4 z = true -> int4_of (inject_Z z) = Some z.
Proof.
  intro H. unfold int4_of, Zod.is_int, inject_Z. cbn [Qnum Qden].
  rewrite Z.mod_1_r, Z.div_1_r, H. reflexivity.
Qed.



(** *** The update as it is called *)




(** An update throws on what it is given, whatever the table holds. *)
Lemma call_update_thrown_always (db db' : database) (u : UpdateObject.t) :
  Call.updateCodeCheckpoint db u = Thrown ->
  Call.updateCodeCheckpoint db' u = Thrown.
Proof.
  unfold Call.updateCodeCheckpoint.
  destruct ((0 <? Call.keys u)%nat && (Call.values u =? 0)%nat);
    [reflexivity|].
  destruct (int4_of (UpdateObject.id u)); [|reflexivity].
  destruct (Call.storable_update u); [discriminate | reflexivity].
Qed.







(** C10, as the code has it.  The score of a stored vector is the dot
    product, in the arithmetic of [real], over the positions that both
    vectors have: elements of the longer vector beyond the length of the
    shorter one play no part.  A row whose stored embedding is empty
    scores 0: the subquery sums over no row, and [COALESCE] turns the
    missing sum into 0. *)
Theorem similarity_over_common_prefix (query_embedding stored : list Q) :
  let n := Nat.min (List.length stored) (List.length query_embedding) in
  similarity query_embedding stored
  = float4_dot_product (firstn n stored) (firstn n query_embedding)
  /\ similarity query_embedding stored
     = similarity (firstn n query_embedding) (firstn n stored)
  /\ similarity query_embedding [] = 0%Q
  /\ sql_sum (map product_of
                  (join_on_ord (unnest_with_ordinality (real_array []))
                               (unnest_with_ordinality
                                  (real_array query_embedding))))
     = None.
Proof.
  cbv zeta. split; [|split; [|split]].
  - rewrite similarity_float4_dot_product.
    apply float4_dot_product_common_prefix.
  - rewrite !similarity_float4_dot_product.
    apply float4_dot_product_common_prefix.
  - reflexivity.
  - reflexivity.
Qed.

(** C10 as stated fails: the score of the stored vector [[16777216, 1, 5]]
    for the query [[1, 1]] is 16777216, and the dot product over the two
    common positions is 16777217. *)
Lemma similarity_not_dot_product_counterexample :
  let stored := [inject_Z 16777216; inject_Z 1; inject_Z 5] in
  let q := [inject_Z 1; inject_Z 1] in
  Qred (similarity q stored) = inject_Z 16777216
  /\ Qred (dot_product (firstn 2 stored) (firstn 2 q)) = inject_Z 16777217
  /\ Nat.min (List.length stored) (List.length q) = 2%nat.
Proof. vm_compute. repeat split. Qed.

(* ================================================================= *)
(** * More of the code *)

(** ** Definitions *)

(** [get_code_checkpoints.ts]:
    [select ... order by created_at desc], then
    [({ ...checkpoint, embedding: checkpoint.embedding as number[] })]. *)
Definition with_typed_embedding (checkpoint : row) : row :=
  CodeCheckpoint.mk
    (CodeCheckpoint.id checkpoint) (CodeCheckpoint.title checkpoint)
    (CodeCheckpoint.summary checkpoint) (CodeCheckpoint.code_snippet checkpoint)
    (CodeCheckpoint.user_feedback checkpoint)
    (CodeCheckpoint.programming_language checkpoint)
    (CodeCheckpoint.tags checkpoint) (CodeCheckpoint.embedding checkpoint)
    (CodeCheckpoint.created_at checkpoint).

Definition getCodeCheckpoints {engine : StorageEngine} (db : database)
  : list row :=
  let results := order_by created_at_desc (rows db) in
  map with_typed_embedding results.

Definition with_language (input : SearchInput.t) (l : option string)
  : SearchInput.t :=
  SearchInput.mk (SearchInput.query input) (SearchInput.keywords input)
    l (SearchInput.tags input)
    (SearchInput.embedding input) (SearchInput.limit input)
    (SearchInput.offset input).

(** The page of a search at [offset] with [limit]. *)
Definition page {engine : StorageEngine} (db : database)
           (input : SearchInput.t) (offset limit : nat) : SearchResults.t :=
  searchCodeCheckpoints db (with_limit (with_offset input offset) limit).

(** The sequence behind [serial] is ahead of every stored id: the handlers
    never write an id of their own. *)
Definition sequence_ahead (db : database) : Prop :=
  Forall (fun r => (CodeCheckpoint.id r < id_seq db)%Z) (rows db).

Definition well_formed (db : database) : Prop :=
  primary_key db /\ sequence_ahead db.

(** The writing handlers, as steps on the store. *)
Inductive operation : Type :=
| OpCreate (now : Z) (input : CreateInput.t)
| OpUpdate (input : UpdateInput.t)
| OpDelete (id : Z).

Definition apply_operation (db : database) (op : operation) : database :=
  match op with
  | OpCreate now input => fst (createCodeCheckpoint now db input)
  | OpUpdate input => fst (updateCodeCheckpoint db input)
  | OpDelete id => fst (deleteCodeCheckpoint db id)
  end.

Definition run (ops : list operation) (db : database) : database :=
  fold_left apply_operation ops db.

(** The object a client sends to search; a key whose value is [undefined]
    is left out. *)
Definition optional_key {A} (k : string) (encode : A -> Zod.value)
           (o : option A) : list (string * Zod.value) :=
  match o with Some a => [(k, encode a)] | None => [] end.

Definition number_of_nat (n : nat) : Zod.value :=
  Zod.VNumber (inject_Z (Z.of_nat n)).

Definition search_payload (query : option string)
           (keywords : option (list string))
           (programming_language : option string)
           (tags : option (list string)) (embedding : option (list Q))
           (limit offset : option nat) : Zod.value :=
  Zod.VObject
    (optional_key "query" Zod.VString query
     ++ optional_key "keywords" (fun l => Zod.VArray (map Zod.VString l)) keywords
     ++ optional_key "programming_language" Zod.VString programming_language
     ++ optional_key "tags" (fun l => Zod.VArray (map Zod.VString l)) tags
     ++ optional_key "embedding" (fun l => Zod.VArray (map Zod.VNumber l)) embedding
     ++ optional_key "limit" number_of_nat limit
     ++ optional_key "offset" number_of_nat offset).

(** The five [text(...).notNull()] columns hold non-empty text. *)
Definition text_fields_nonempty (r : row) : bool :=
  truthy (CodeCheckpoint.title r) && truthy (CodeCheckpoint.summary r)
  && truthy (CodeCheckpoint.code_snippet r)
  && truthy (CodeCheckpoint.user_feedback r)
  && truthy (CodeCheckpoint.programming_language r).

(** The keys of [createCodeCheckpointInputSchema]. *)
Definition create_keys : list string :=
  ["title"; "summary"; "code_snippet"; "user_feedback";
   "programming_language"; "tags"; "embedding"].

(** ** Pages of a search *)

Section MoreSearch.

Context {engine : StorageEngine}.

Lemma page_results (db : database) (input : SearchInput.t) (o l : nat) :
  SearchResults.results (page db input o l)
  = firstn l (skipn o (ordered_matching_set db input)).
Proof. unfold page. now rewrite search_results. Qed.

Lemma page_total (db : database) (input : SearchInput.t) (o l : nat) :
  SearchResults.total (page db input o l)
  = List.length (ordered_matching_set db input).
Proof.
  unfold page. rewrite search_total.
  change (matching_set db (with_limit (with_offset input o) l))
    with (matching_set db input).
  apply Permutation_length, ordered_matching_set_permutation.
Qed.

Lemma firstn_add {A} (a b : nat) (l : list A) :
  firstn a l ++ firstn b (skipn a l) = firstn (a + b) l.
Proof.
  revert l. induction a as [|a IH]; intro l; [reflexivity|].
  destruct l as [|x l]; simpl.
  - now rewrite firstn_nil.
  - now rewrite IH.
Qed.

(** X1.  The rows of a page are stored rows that satisfy the predicate of
    the search, no row is there twice when ids are unique, and their
    number is [min limit (total - offset)]: never more than [limit], zero
    once the offset reaches the total. *)
Theorem page_size_and_soundness (db : database) (input : SearchInput.t) :
  let r := searchCodeCheckpoints db input in
  List.length (SearchResults.results r)
  = Nat.min (SearchInput.limit input)
            (SearchResults.total r - SearchInput.offset input)
  /\ (forall x, In x (SearchResults.results r) ->
                In x (rows db) /\ matches input x = true)
  /\ (primary_key db -> NoDup (ids (SearchResults.results r))).
Proof.
  cbv zeta. rewrite search_results, search_total.
  pose proof (ordered_matching_set_permutation db input) as Hperm.
  split; [|split].
  - rewrite length_firstn, length_skipn.
    now rewrite (Permutation_length Hperm).
  - intros x Hx.
    assert (Hin : In x (ordered_matching_set db input)).
    { rewrite <- (firstn_skipn (SearchInput.offset input)).
      apply in_or_app. right.
      rewrite <- (firstn_skipn (SearchInput.limit input)
                               (skipn _ (ordered_matching_set db input))).
      apply in_or_app. now left. }
    apply (Permutation_in _ (Permutation_sym Hperm)) in Hin.
    rewrite matching_set_filter in Hin. now apply filter_In in Hin.
  - intro Hpk.
    assert (Hnd : NoDup (ids (ordered_matching_set db input))).
    { eapply Permutation_NoDup; [apply Permutation_map, Hperm|].
      rewrite matching_set_filter. unfold primary_key in Hpk.
      clear Hperm. induction (rows db) as [|y t IH]; [constructor|].
      simpl in *. inversion Hpk as [|? ? Hy Ht]; subst.
      destruct (matches input y); [|now apply IH].
      simpl. constructor; [|now apply IH].
      intro Hc. apply Hy. apply in_map_iff in Hc.
      destruct Hc as [z [Hz Hin]]. apply filter_In in Hin.
      apply in_map_iff. exists z. tauto. }
    unfold ids in *.
    rewrite <- (firstn_skipn (SearchInput.offset input)
                             (ordered_matching_set db input)) in Hnd.
    rewrite map_app in Hnd. apply NoDup_app_remove_l in Hnd.
    rewrite <- (firstn_skipn (SearchInput.limit input)
                             (skipn _ (ordered_matching_set db input))) in Hnd.
    rewrite map_app in Hnd. now apply NoDup_app_remove_r in Hnd.
Qed.

(** X2.  [has_more] is true exactly when the page that starts right after
    this one, asked with any positive limit, has a row. *)
Theorem has_more_iff_next_page_nonempty
        (db : database) (input : SearchInput.t) (n : nat) :
  let r := searchCodeCheckpoints db input in
  let next := page db input
                (SearchInput.offset input + SearchInput.limit input) (S n) in
  SearchResults.has_more r
  = (0 <? List.length (SearchResults.results next))%nat.
Proof.
  cbv zeta. rewrite search_has_more, search_total, page_results.
  rewrite (Permutation_length (ordered_matching_set_permutation db input)).
  rewrite length_firstn, length_skipn.
  destruct (Nat.ltb_spec (SearchInput.offset input + SearchInput.limit input)
                         (List.length (ordered_matching_set db input)));
    symmetry; [apply Nat.ltb_lt | apply Nat.ltb_ge]; lia.
Qed.

End MoreSearch.

(** ** Pages asked one statement after the other *)

Lemma sorted_permutation_unique {A} (R : A -> A -> Prop) (l1 l2 : list A) :
  (forall a b, In a l1 -> In b l1 -> R a b -> R b a -> a = b) ->
  Permutation l1 l2 ->
  StronglySorted R l1 -> StronglySorted R l2 -> l1 = l2.
Proof.
  revert l2. induction l1 as [|x t IH]; intros l2 Hanti Hp H1 H2.
  - apply Permutation_nil in Hp. now subst.
  - destruct l2 as [|y u].
    + apply Permutation_sym, Permutation_nil in Hp. discriminate Hp.
    + inversion H1 as [|? ? Ht Hx]; subst.
      inversion H2 as [|? ? Hu Hy]; subst.
      assert (Hxy : x = y).
      { assert (Hin1 : In x (y :: u))
          by (apply (Permutation_in _ Hp); now left).
        assert (Hin2 : In y (x :: t))
          by (apply (Permutation_in _ (Permutation_sym Hp)); now left).
        destruct Hin1 as [E|Hin1]; [now symmetry|].
        destruct Hin2 as [E|Hin2]; [exact E|].
        rewrite Forall_forall in Hx, Hy.
        apply Hanti; [now left | now right | now apply Hx | now apply Hy]. }
      subst y. f_equal. apply IH; [| |exact Ht|exact Hu].
      * intros a b Ha Hb. apply Hanti; now right.
      * now apply Permutation_cons_inv in Hp.
Qed.

Lemma NoDup_map_injective {A B} (f : A -> B) (l : list A) (a b : A) :
  NoDup (map f l) -> In a l -> In b l -> f a = f b -> a = b.
Proof.
  induction l as [|x l IH]; intros Hnd Ha Hb E; [contradiction|].
  cbn [map] in Hnd. inversion Hnd as [|? ? Hx Hl]; subst.
  destruct Ha as [<-|Ha], Hb as [<-|Hb].
  - reflexivity.
  - exfalso. apply Hx. rewrite E. now apply in_map.
  - exfalso. apply Hx. rewrite <- E. now apply in_map.
  - now apply IH.
Qed.

(** Rows with different [created_at] leave an engine no choice. *)
Lemma order_by_created_at_unique (engine1 engine2 : StorageEngine)
      (l : list row) :
  NoDup (map CodeCheckpoint.created_at l) ->
  @order_by engine1 created_at_desc l = @order_by engine2 created_at_desc l.
Proof.
  intro Hnd.
  apply (@sorted_permutation_unique
           _ (fun a b => created_at_desc a b = true)).
  - intros a b Ha Hb Hab Hba.
    apply (Permutation_in _ (Permutation_sym
                               (@order_by_permutation engine1 _ l))) in Ha.
    apply (Permutation_in _ (Permutation_sym
                               (@order_by_permutation engine1 _ l))) in Hb.
    apply (NoDup_map_injective _ _ _ _ Hnd Ha Hb).
    unfold created_at_desc in Hab, Hba.
    apply Z.leb_le in Hab. apply Z.leb_le in Hba. lia.
  - eapply Permutation_trans;
      [apply Permutation_sym, order_by_permutation
      | apply order_by_permutation].
  - apply order_by_sorted;
      [apply created_at_desc_total | apply created_at_desc_trans].
  - apply order_by_sorted;
      [apply created_at_desc_total | apply created_at_desc_trans].
Qed.

Lemma matching_set_without_embedding (db : database) (input : SearchInput.t) :
  matching_set db (with_embedding input None) = matching_set db input.
Proof. reflexivity. Qed.

Lemma recent_ordered_matching_set (engine : StorageEngine) (db : database)
      (input : SearchInput.t) :
  @ordered_matching_set engine db (with_embedding input None)
  = @order_by engine created_at_desc (matching_set db input).
Proof. reflexivity. Qed.

(** X3.  Without an embedding, and when no two matching rows have the
    same [created_at], a page followed by the page that starts where it
    ends is the page of both limits together, each of the three asked in
    a search of its own, whatever the engine does with equal keys.  The
    page at offset 0 whose limit is the total of an earlier search holds
    all matching rows, each once, and reports no more. *)
Theorem consecutive_pages_concatenate
        (engine1 engine2 engine3 : StorageEngine)
        (db : database) (input : SearchInput.t) (o l1 l2 : nat) :
  NoDup (map CodeCheckpoint.created_at (matching_set db input)) ->
  let recent := with_embedding input None in
  SearchResults.results (@page engine1 db recent o l1)
  ++ SearchResults.results (@page engine2 db recent (o + l1) l2)
  = SearchResults.results (@page engine3 db recent o (l1 + l2))
  /\ (let whole :=
        @page engine1 db input 0
              (SearchResults.total (@searchCodeCheckpoints engine2 db input)) in
      Permutation (matching_set db input) (SearchResults.results whole)
      /\ SearchResults.has_more whole = false).
Proof.
  intro Hnd. cbv zeta. split.
  - rewrite !page_results, !recent_ordered_matching_set.
    rewrite (@order_by_created_at_unique engine1 engine3 _ Hnd).
    rewrite (@order_by_created_at_unique engine2 engine3 _ Hnd).
    rewrite (Nat.add_comm o l1), <- skipn_skipn.
    apply firstn_add.
  - rewrite page_results, search_total.
    rewrite (Permutation_length
               (@ordered_matching_set_permutation engine1 db input)).
    split.
    + simpl skipn. rewrite firstn_all.
      apply ordered_matching_set_permutation.
    + unfold page. rewrite search_has_more, search_total.
      change (matching_set db _) with (matching_set db input).
      rewrite (Permutation_length
                 (@ordered_matching_set_permutation engine1 db input)).
      apply Nat.ltb_irrefl.
Qed.

Lemma consecutive_pages_concatenate_witness :
  NoDup (map CodeCheckpoint.created_at (matching_set test_db no_filters))
  /\ SearchResults.results (@page heap_order_engine test_db no_filters 0 2)
     ++ SearchResults.results (@page reverse_heap_engine test_db no_filters 2 2)
     = SearchResults.results (@page heap_order_engine test_db no_filters 0 4).
Proof.
  assert (H : NoDup (map CodeCheckpoint.created_at
                         (matching_set test_db no_filters))).
  { vm_compute.
    repeat (constructor; [simpl; intuition discriminate|]). constructor. }
  split; [exact H|].
  exact (proj1 (@consecutive_pages_concatenate
                  heap_order_engine reverse_heap_engine heap_order_engine
                  test_db no_filters 0 2 2 H)).
Defined.

(** ** Filters, again *)

(** X4.  With a non-empty [programming_language], a stored row whose other
    filters hold is in the matching set exactly when its language is that
    string, character for character (case matters). *)
Theorem language_filter_exact
        (db : database) (input : SearchInput.t)
        (c : ascii) (l : string) (r : row) :
  let language := String c l in
  let other_filters :=
    forallb (fun c => holds c r)
            (tag_conditions input ++ keyword_conditions input) in
  In r (matching_set db (with_language input (Some language)))
  <-> In r (rows db) /\ other_filters = true
      /\ CodeCheckpoint.programming_language r = language.
Proof.
  cbv zeta.
  rewrite matching_set_filter, filter_In, matches_split, forallb_app.
  change (tag_conditions (with_language input (Some (String c l))))
    with (tag_conditions input).
  change (keyword_conditions (with_language input (Some (String c l))))
    with (keyword_conditions input).
  change (language_conditions (with_language input (Some (String c l))))
    with [EqLanguage (String c l)].
  cbn [forallb holds]. rewrite andb_true_r, !andb_true_iff, String.eqb_eq.
  tauto.
Qed.

Lemma like_match_any_any (s : list ascii) :
  Text.like_match [Text.PAny; Text.PAny] s = true.
Proof.
  rewrite like_match_any_unfold, like_match_any_alone. reflexivity.
Qed.

(** X5.  The empty keyword restricts nothing: a search whose keywords are
    the one empty string has the matching set of the same search without
    keywords. *)
Theorem empty_keyword_matches_everything
        (db : database) (input : SearchInput.t) :
  matching_set db (with_keywords input (Some [""]))
  = matching_set db (with_keywords input None).
Proof.
  rewrite !matching_set_filter. apply filter_ext. intro r.
  rewrite !matches_split.
  change (keyword_conditions (with_keywords input (Some [""])))
    with [keyword_condition ""].
  change (keyword_conditions (with_keywords input None)) with (@nil condition).
  cbn [forallb holds keyword_condition existsb].
  unfold Text.ilike, Text.like.
  change (Text.like_tokens (Text.lower (Text.chars (Text.wrap_percent ""))))
    with [Text.PAny; Text.PAny].
  now rewrite !like_match_any_any.
Qed.

(** ** The score, again *)

Lemma float4_mul_comm (x y : Q) : Float4.mul x y = Float4.mul y x.
Proof.
  unfold Float4.mul. f_equal. unfold Qmult.
  f_equal; [apply Z.mul_comm | apply Pos.mul_comm].
Qed.

Lemma float4_dot_from_comm (acc : Q) (a b : list Q) :
  float4_dot_from acc a b = float4_dot_from acc b a.
Proof.
  revert acc b. induction a as [|x a IH]; intros acc [|y b];
    try reflexivity.
  cbn [float4_dot_from]. rewrite float4_mul_comm. apply IH.
Qed.

(** X6.  The score is the same when the query and the stored vector change
    places, product by product and sum by sum in the arithmetic of
    [real]; against an empty vector it is 0 on either side. *)
Theorem similarity_symmetric (query_embedding stored : list Q) :
  similarity query_embedding stored = similarity stored query_embedding
  /\ similarity query_embedding [] = 0%Q
  /\ similarity [] stored = 0%Q.
Proof.
  rewrite !similarity_float4_dot_product. split; [|split].
  - destruct stored as [|x a], query_embedding as [|y b]; try reflexivity.
    cbn [float4_dot_product]. rewrite float4_mul_comm.
    apply float4_dot_from_comm.
  - reflexivity.
  - now destruct stored.
Qed.

(** ** The listing *)

Lemma map_with_typed_embedding (l : list row) :
  map with_typed_embedding l = l.
Proof.
  induction l as [|r l IH]; simpl; [reflexivity|].
  rewrite IH. now destruct r.
Qed.

(** X7.  The listing returns every stored row once, newest first, and is
    what an unfiltered search without embedding returns at offset 0 when
    its limit is the number of rows. *)
Theorem listing_is_unfiltered_search
        {engine : StorageEngine} (db : database) (input : SearchInput.t) :
  let listing := getCodeCheckpoints db in
  Permutation (rows db) listing
  /\ StronglySorted
       (fun a b => (CodeCheckpoint.created_at b
                    <= CodeCheckpoint.created_at a)%Z) listing
  /\ SearchResults.results
       (searchCodeCheckpoints db
          (SearchInput.mk (SearchInput.query input) None None None None
                          (List.length (rows db)) 0))
     = listing.
Proof.
  cbv zeta. unfold getCodeCheckpoints. rewrite map_with_typed_embedding.
  split; [|split].
  - apply order_by_permutation.
  - apply newest_first_sorted.
  - rewrite search_results. cbn [SearchInput.limit SearchInput.offset skipn].
    unfold ordered_matching_set, matching_set. cbn.
    rewrite (Permutation_length (order_by_permutation created_at_desc (rows db))).
    apply firstn_all.
Qed.

(** ** The store under the writing handlers *)

Lemma update_keeps_identity (db : database) (input : UpdateInput.t) :
  Permutation
    (map (fun r => (CodeCheckpoint.id r, CodeCheckpoint.created_at r))
         (rows db))
    (map (fun r => (CodeCheckpoint.id r, CodeCheckpoint.created_at r))
         (rows (fst (updateCodeCheckpoint db input)))).
Proof.
  eapply Permutation_trans;
    [|apply Permutation_map, update_rows_permutation].
  rewrite map_map.
  rewrite (map_ext
             (fun r => (CodeCheckpoint.id r, CodeCheckpoint.created_at r))
             (fun r =>
                (CodeCheckpoint.id
                   (if holds (EqId (UpdateInput.id input)) r
                    then set_fields input r else r),
                 CodeCheckpoint.created_at
                   (if holds (EqId (UpdateInput.id input)) r
                    then set_fields input r else r)))); [reflexivity|].
  intro r. now destruct (holds (EqId (UpdateInput.id input)) r).
Qed.

Lemma update_keeps_ids (input : UpdateInput.t) (db : database) :
  Permutation (ids (rows db))
              (ids (rows (fst (updateCodeCheckpoint db input)))).
Proof.
  unfold ids. eapply Permutation_trans;
    [|apply Permutation_map, update_rows_permutation].
  rewrite map_map.
  rewrite (map_ext
             CodeCheckpoint.id
             (fun r =>
                CodeCheckpoint.id
                  (if holds (EqId (UpdateInput.id input)) r
                   then set_fields input r else r))); [reflexivity|].
  intro r. now destruct (holds (EqId (UpdateInput.id input)) r).
Qed.

Lemma NoDup_ids_filter (f : row -> bool) (table : list row) :
  NoDup (ids table) -> NoDup (ids (filter f table)).
Proof.
  unfold ids. induction table as [|y t IH]; intro H; [constructor|].
  simpl in *. inversion H as [|? ? Hy Ht]; subst.
  destruct (f y); [|now apply IH].
  simpl. constructor; [|now apply IH].
  intro Hc. apply Hy. apply in_map_iff in Hc.
  destruct Hc as [z [Hz Hin]]. apply filter_In in Hin.
  apply in_map_iff. exists z. tauto.
Qed.

Lemma sequence_ahead_ids (db : database) :
  sequence_ahead db <-> Forall (fun i => (i < id_seq db)%Z) (ids (rows db)).
Proof. unfold sequence_ahead, ids. now rewrite Forall_map. Qed.

Lemma id_seq_monotone (db : database) (op : operation) :
  (id_seq db <= id_seq (apply_operation db op))%Z.
Proof.
  destruct op as [now input|input|id]; simpl.
  - lia.
  - rewrite update_id_seq. lia.
  - unfold deleteCodeCheckpoint, sql_delete. simpl. lia.
Qed.

Lemma well_formed_step (db : database) (op : operation) :
  well_formed db -> well_formed (apply_operation db op).
Proof.
  intros [Hpk Hseq]. destruct op as [now input|input|id]; simpl.
  - split.
    + unfold primary_key. cbn [createCodeCheckpoint fst rows].
      rewrite map_app. cbn [map CodeCheckpoint.id].
      apply NoDup_app; [exact Hpk | |].
      * repeat constructor. intros [].
      * intros i Hi [Hj|[]]. subst i.
        apply sequence_ahead_ids in Hseq. unfold ids in Hseq.
        rewrite Forall_forall in Hseq. specialize (Hseq _ Hi). lia.
    + unfold sequence_ahead. cbn [createCodeCheckpoint fst rows id_seq].
      apply Forall_app. split.
      * eapply Forall_impl; [|exact Hseq]. simpl. intros r Hr. lia.
      * repeat constructor. simpl. lia.
  - split.
    + unfold primary_key. fold (ids (rows (fst (updateCodeCheckpoint db input)))).
      eapply Permutation_NoDup; [apply update_keeps_ids | exact Hpk].
    + apply sequence_ahead_ids. rewrite update_id_seq.
      eapply Permutation_Forall; [apply update_keeps_ids|].
      now apply sequence_ahead_ids.
  - unfold deleteCodeCheckpoint, sql_delete. cbn [fst]. split.
    + unfold primary_key. cbn [rows]. now apply NoDup_ids_filter.
    + unfold sequence_ahead. cbn [rows id_seq].
      unfold sequence_ahead in Hseq. rewrite Forall_forall in *.
      intros r Hr. apply filter_In in Hr. now apply Hseq.
Qed.

(** X8.  Whatever creates, updates and deletes are run, in whatever order,
    on a store with unique ids below the sequence, the ids stay unique
    and below the sequence. *)
Theorem handlers_keep_primary_key (db : database) (ops : list operation) :
  well_formed db -> well_formed (run ops db).
Proof.
  revert db. induction ops as [|op ops IH]; intros db H; [exact H|].
  simpl. apply IH. now apply well_formed_step.
Qed.

Lemma empty_db_well_formed : well_formed empty_db.
Proof. split; constructor. Qed.

Lemma handlers_keep_primary_key_witness :
  well_formed empty_db
  /\ well_formed
       (run [OpCreate 10 (CreateInput.mk "a" "b" "c" "d" "Go" [] []);
             OpCreate 10 (CreateInput.mk "e" "f" "g" "h" "Go" ["x"] []);
             OpUpdate (only_title 2 "t"); OpDelete 1;
             OpCreate 11 (CreateInput.mk "i" "j" "k" "l" "C" [] [])]
            empty_db).
Proof.
  split; [exact empty_db_well_formed|].
  apply handlers_keep_primary_key. split; constructor.
Defined.

Lemma filter_id_app_fresh (i : Z) (table : list row) (cp : row) :
  CodeCheckpoint.id cp <> i ->
  filter (holds (EqId i)) (table ++ [cp]) = filter (holds (EqId i)) table.
Proof.
  intro H. rewrite filter_app. cbn [filter holds].
  apply Z.eqb_neq in H. rewrite H. apply app_nil_r.
Qed.

Lemma filter_id_absent (i : Z) (table : list row) :
  Forall (fun r => CodeCheckpoint.id r <> i) table ->
  filter (holds (EqId i)) table = [].
Proof.
  induction 1 as [|r t Hr Ht IH]; [reflexivity|].
  cbn [filter holds]. apply Z.eqb_neq in Hr. now rewrite Hr.
Qed.

Lemma sequence_ahead_absent (db : database) :
  sequence_ahead db ->
  Forall (fun r => CodeCheckpoint.id r <> id_seq db) (rows db).
Proof.
  intro H. eapply Forall_impl; [|exact H]. simpl. intros r Hr. lia.
Qed.

Lemma created_is_found (now : Z) (db : database) (input : CreateInput.t) :
  sequence_ahead db ->
  let after := fst (createCodeCheckpoint now db input) in
  let created := snd (createCodeCheckpoint now db input) in
  getCodeCheckpointById after (CodeCheckpoint.id created) = Some created
  /\ getCodeCheckpointById db (CodeCheckpoint.id created) = None
  /\ (forall j, j <> CodeCheckpoint.id created ->
        getCodeCheckpointById after j = getCodeCheckpointById db j).
Proof.
  intro Hseq. cbv zeta. cbn [createCodeCheckpoint fst snd CodeCheckpoint.id].
  rewrite !getCodeCheckpointById_hd. cbn [rows].
  pose proof (filter_id_absent (sequence_ahead_absent Hseq)) as Habs.
  split; [|split].
  - rewrite filter_app, Habs. cbn [filter holds app CodeCheckpoint.id].
    now rewrite Z.eqb_refl.
  - now rewrite Habs.
  - intros j Hj. rewrite !getCodeCheckpointById_hd. cbn [rows].
    rewrite filter_id_app_fresh; [reflexivity|]. simpl. congruence.
Qed.

(** X9.  On a store whose ids are below the sequence, a create that
    returns gives a checkpoint that is found under its id as it was
    returned, with the id of the sequence, the time stamp of the insert,
    the texts and the tags of the input and an embedding of as many
    numbers as the input has; the id was not in use before, and every
    other id is found as before.  A create throws only when the sequence
    has left the range of the column or a value cannot be stored (a
    string with the character of code 0, a number out of the range of
    [real]). *)
Theorem create_then_get (now : Z) (db : database) (input : CreateInput.t) :
  sequence_ahead db ->
  match Call.createCodeCheckpoint now db input with
  | Returned (after, created) =>
      Call.getCodeCheckpointById after (inject_Z (CodeCheckpoint.id created))
      = Returned (Some created)
      /\ Call.getCodeCheckpointById db (inject_Z (CodeCheckpoint.id created))
         = Returned None
      /\ (forall j, j <> CodeCheckpoint.id created ->
            getCodeCheckpointById after j = getCodeCheckpointById db j)
      /\ CodeCheckpoint.id created = id_seq db
      /\ CodeCheckpoint.created_at created = now
      /\ CodeCheckpoint.title created = CreateInput.title input
      /\ CodeCheckpoint.summary created = CreateInput.summary input
      /\ CodeCheckpoint.code_snippet created = CreateInput.code_snippet input
      /\ CodeCheckpoint.user_feedback created
         = CreateInput.user_feedback input
      /\ CodeCheckpoint.programming_language created
         = CreateInput.programming_language input
      /\ CodeCheckpoint.tags created = CreateInput.tags input
      /\ List.length (CodeCheckpoint.embedding created)
         = List.length (CreateInput.embedding input)
  | Thrown =>
      is_int4 (id_seq db) = false \/ Call.storable_create input = false
  end.
Proof.
  intro Hseq. unfold Call.createCodeCheckpoint.
  destruct (is_int4 (id_seq db)) eqn:Hr; [|now left].
  destruct (Call.storable_create input); [|now right].
  cbn [andb].
  destruct (created_is_found now (Call.create_input input) Hseq)
    as (H1 & H2 & H3).
  destruct (createCodeCheckpoint now db (Call.create_input input))
    as [after created] eqn:Hc.
  assert (Hcreated : created
                     = snd (createCodeCheckpoint now db
                                                 (Call.create_input input)))
    by now rewrite Hc.
  cbn [fst snd] in H1, H2, H3.
  assert (Hid : CodeCheckpoint.id created = id_seq db)
    by now rewrite Hcreated.
  unfold Call.getCodeCheckpointById.
  rewrite Hid, int4_of_inject_Z by exact Hr. rewrite Hid in H1, H2.
  split; [now rewrite H1|]. split; [now rewrite H2|].
  split; [now rewrite <- Hid|]. split; [reflexivity|].
  rewrite Hcreated. cbn. repeat split.
  unfold real_array. apply length_map.
Qed.

Lemma create_then_get_witness :
  sequence_ahead test_db
  /\ (let input := CreateInput.mk "Minimal Checkpoint" "Minimal data checkpoint"
                                  "x = 1" "Basic" "python" [] [Qmake 5 10] in
      exists after created,
        Call.createCodeCheckpoint 9000 test_db input
        = Returned (after, created)
        /\ Call.getCodeCheckpointById
             after (inject_Z (CodeCheckpoint.id created))
           = Returned (Some created)).
Proof.
  assert (H : sequence_ahead test_db).
  { unfold sequence_ahead. vm_compute. repeat constructor. }
  split; [exact H|]. cbv zeta.
  pose proof (@create_then_get 9000 test_db
                (CreateInput.mk "Minimal Checkpoint" "Minimal data checkpoint"
                                "x = 1" "Basic" "python" [] [Qmake 5 10]) H)
    as T.
  destruct (Call.createCodeCheckpoint 9000 test_db
              (CreateInput.mk "Minimal Checkpoint" "Minimal data checkpoint"
                              "x = 1" "Basic" "python" [] [Qmake 5 10]))
    as [[after created]|] eqn:E.
  - exists after, created. split; [reflexivity|]. apply T.
  - vm_compute in E. discriminate E.
Defined.

Lemma set_fields_twice (input : UpdateInput.t) (r : row) :
  set_fields input (set_fields input r) = set_fields input r.
Proof.
  destruct input as [i [t|] [s|] [c|] [u|] [p|] [g|] [e|]]; reflexivity.
Qed.

Lemma filter_others_of_updated (id : Z) (f : row -> row) (l : list row) :
  (forall r, CodeCheckpoint.id (f r) = CodeCheckpoint.id r) ->
  filter (fun r => negb (holds (EqId id) r))
         (map f (filter (holds (EqId id)) l)) = [].
Proof.
  intro Hf. induction l as [|r l IH]; [reflexivity|].
  cbn [filter]. destruct (holds (EqId id) r) eqn:Hr; [|exact IH].
  cbn [map filter].
  assert (H : holds (EqId id) (f r) = true) by (simpl in *; now rewrite Hf).
  now rewrite H.
Qed.

Lemma update_twice (db : database) (input : UpdateInput.t) :
  updateCodeCheckpoint (fst (updateCodeCheckpoint db input)) input
  = updateCodeCheckpoint db input.
Proof.
  rewrite (updateCodeCheckpoint_shape db).
  destruct (update_keys input =? 0)%nat eqn:Hk; cbn [fst].
  - rewrite updateCodeCheckpoint_shape. now rewrite Hk.
  - rewrite updateCodeCheckpoint_shape, Hk. cbn [rows id_seq].
    rewrite filter_updated_same by reflexivity.
    assert (Hm : map (set_fields input)
                     (map (set_fields input)
                          (filter (holds (EqId (UpdateInput.id input)))
                                  (rows db)))
                 = map (set_fields input)
                       (filter (holds (EqId (UpdateInput.id input)))
                               (rows db))).
    { rewrite map_map. apply map_ext. intro r. apply set_fields_twice. }
    f_equal; [|now rewrite Hm]. f_equal.
    unfold sql_update. cbn [fst].
    rewrite filter_app, filter_negb_twice.
    rewrite filter_others_of_updated by reflexivity.
    rewrite app_nil_r. f_equal.
    rewrite filter_app, filter_id_after_delete, Z.eqb_refl. cbn [app].
    rewrite filter_id_map by reflexivity.
    now rewrite filter_filter_same.
Qed.

(** What an update that returns does to the table does not depend on the
    table it is run on. *)
Lemma call_update_input (db : database) (u : UpdateObject.t)
      (x : database * option row) :
  Call.updateCodeCheckpoint db u = Returned x ->
  exists input,
    forall db', Call.updateCodeCheckpoint db' u
                = Returned (updateCodeCheckpoint db' input).
Proof.
  unfold Call.updateCodeCheckpoint.
  destruct ((0 <? Call.keys u)%nat && (Call.values u =? 0)%nat);
    [discriminate|].
  destruct (int4_of (UpdateObject.id u)) as [id|]; [|discriminate].
  destruct (Call.storable_update u); [|discriminate].
  intros _. now eexists.
Qed.

(** X10.  An update that returns adds no row and removes none, and leaves
    the id and the creation time of every row as they are.  Updating a
    second time with the same object changes nothing more and returns
    the same record.  An update that throws throws on every table. *)
Theorem update_keeps_rows_and_is_idempotent
        (db : database) (update : UpdateObject.t) :
  match Call.updateCodeCheckpoint db update with
  | Returned (after, returned) =>
      Permutation
        (map (fun r => (CodeCheckpoint.id r, CodeCheckpoint.created_at r))
             (rows db))
        (map (fun r => (CodeCheckpoint.id r, CodeCheckpoint.created_at r))
             (rows after))
      /\ List.length (rows after) = List.length (rows db)
      /\ Call.updateCodeCheckpoint after update = Returned (after, returned)
  | Thrown => forall db', Call.updateCodeCheckpoint db' update = Thrown
  end.
Proof.
  destruct (Call.updateCodeCheckpoint db update) as [[after returned]|] eqn:H.
  - destruct (call_update_input _ _ H) as [input Hin].
    rewrite Hin in H. injection H as H.
    assert (Hafter : after = fst (updateCodeCheckpoint db input))
      by now rewrite H.
    assert (Hp := update_keeps_identity db input).
    rewrite <- Hafter in Hp.
    split; [exact Hp|]. split.
    + apply Permutation_length in Hp. rewrite !length_map in Hp.
      now symmetry.
    + rewrite Hin, Hafter, update_twice, H. reflexivity.
  - intro db'. now apply (call_update_thrown_always db).
Qed.

(** X11.  Deleting with the same id a second time returns [false] and
    leaves the store as the first delete left it; a delete that throws
    throws on every table. *)
Theorem delete_twice (db : database) (id : Q) :
  match Call.deleteCodeCheckpoint db id with
  | Returned (after, _) =>
      Call.deleteCodeCheckpoint after id = Returned (after, false)
  | Thrown => forall db', Call.deleteCodeCheckpoint db' id = Thrown
  end.
Proof.
  unfold Call.deleteCodeCheckpoint.
  destruct (int4_of id) as [z|]; [|reflexivity].
  unfold deleteCodeCheckpoint, sql_delete. cbn [fst rows id_seq].
  rewrite filter_negb_twice, filter_id_after_delete, Z.eqb_refl.
  reflexivity.
Qed.

Lemma filter_partition_length {A} (f : A -> bool) (l : list A) :
  (List.length (filter f l) + List.length (filter (fun x => negb (f x)) l)
   = List.length l)%nat.
Proof.
  induction l as [|x l IH]; simpl; [reflexivity|].
  destruct (f x); simpl; lia.
Qed.

Lemma primary_key_at_most_one (db : database) (i : Z) :
  primary_key db ->
  (List.length (filter (holds (EqId i)) (rows db)) <= 1)%nat.
Proof.
  unfold primary_key.
  induction (rows db) as [|r t IH]; intro H; cbn [filter]; [simpl; lia|].
  cbn [map] in H. inversion H as [|? ? Hr Ht]; subst.
  destruct (holds (EqId i) r) eqn:Hi; [|now apply IH].
  simpl in Hi. apply Z.eqb_eq in Hi.
  rewrite filter_id_absent; [simpl; lia|].
  rewrite Forall_forall. intros x Hx Hc. apply Hr.
  apply in_map_iff. exists x. split; [congruence | exact Hx].
Qed.

(** X12.  With unique ids, a delete that returns [true] removes exactly
    one row, and a delete that returns [false] removes none. *)
Theorem delete_removes_one_row (db : database) (id : Z) :
  primary_key db ->
  let after := fst (deleteCodeCheckpoint db id) in
  let deleted := snd (deleteCodeCheckpoint db id) in
  List.length (rows db)
  = (List.length (rows after) + if deleted then 1 else 0)%nat.
Proof.
  intro Hpk. cbv zeta. unfold deleteCodeCheckpoint, sql_delete.
  cbn [fst snd rows].
  pose proof (primary_key_at_most_one id Hpk) as H1.
  pose proof (filter_partition_length (holds (EqId id)) (rows db)) as H2.
  set (k := List.length (filter (holds (EqId id)) (rows db))) in *.
  set (m := List.length (filter (fun r => negb (holds (EqId id) r)) (rows db)))
    in *.
  destruct k as [|[|n]]; cbn [Nat.ltb Nat.leb]; lia.
Qed.

Lemma test_db_primary_key : primary_key test_db.
Proof.
  unfold primary_key. vm_compute.
  repeat constructor; simpl; intuition discriminate.
Qed.

Lemma delete_removes_one_row_witness :
  primary_key test_db
  /\ List.length (rows test_db)
     = (List.length (rows (fst (deleteCodeCheckpoint test_db 2)))
        + if snd (deleteCodeCheckpoint test_db 2) then 1 else 0)%nat.
Proof.
  split; [exact test_db_primary_key|].
  exact (@delete_removes_one_row test_db 2 test_db_primary_key).
Defined.

(** X13.  On a store whose ids are below the sequence, creating a
    checkpoint and deleting it again gives back the rows there were; the
    sequence has moved on, so the next checkpoint gets a new id, not the
    deleted one. *)
Theorem create_then_delete
        (now now' : Z) (db : database) (input input' : CreateInput.t) :
  sequence_ahead db ->
  let created := createCodeCheckpoint now db input in
  let deleted :=
    deleteCodeCheckpoint (fst created) (CodeCheckpoint.id (snd created)) in
  let again := createCodeCheckpoint now' (fst deleted) input' in
  snd deleted = true
  /\ rows (fst deleted) = rows db
  /\ CodeCheckpoint.id (snd again) = (CodeCheckpoint.id (snd created) + 1)%Z.
Proof.
  intro Hseq. cbv zeta.
  unfold deleteCodeCheckpoint, sql_delete.
  cbn [createCodeCheckpoint fst snd rows id_seq CodeCheckpoint.id].
  pose proof (sequence_ahead_absent Hseq) as Habs.
  rewrite !filter_app. cbn [filter holds CodeCheckpoint.id negb].
  rewrite Z.eqb_refl. cbn [negb].
  split; [apply Nat.ltb_lt; rewrite length_app; simpl; lia|].
  split; [|reflexivity].
  rewrite app_nil_r. apply forallb_filter_id.
  apply forallb_forall. intros r Hr. rewrite Forall_forall in Habs.
  apply negb_true_iff, Z.eqb_neq. now apply Habs.
Qed.

Lemma test_db_sequence_ahead : sequence_ahead test_db.
Proof. unfold sequence_ahead. vm_compute. repeat constructor. Qed.

Lemma create_then_delete_witness :
  sequence_ahead test_db
  /\ (let input := CreateInput.mk "t" "s" "c" "u" "Go" [] [] in
      let created := createCodeCheckpoint 9000 test_db input in
      let deleted :=
        deleteCodeCheckpoint (fst created) (CodeCheckpoint.id (snd created)) in
      let again := createCodeCheckpoint 9001 (fst deleted) input in
      snd deleted = true
      /\ rows (fst deleted) = rows test_db
      /\ CodeCheckpoint.id (snd again)
         = (CodeCheckpoint.id (snd created) + 1)%Z).
Proof.
  split; [exact test_db_sequence_ahead|].
  exact (@create_then_delete 9000 9001 test_db
           (CreateInput.mk "t" "s" "c" "u" "Go" [] [])
           (CreateInput.mk "t" "s" "c" "u" "Go" [] [])
           test_db_sequence_ahead).
Defined.

Lemma getCodeCheckpointById_found (db : database) (i : Z) (r : row) :
  getCodeCheckpointById db i = Some r ->
  In r (rows db) /\ CodeCheckpoint.id r = i.
Proof.
  rewrite getCodeCheckpointById_hd. intro H.
  destruct (filter (holds (EqId i)) (rows db)) as [|x t] eqn:Hf;
    [discriminate H|].
  injection H as ->.
  assert (Hin : In r (filter (holds (EqId i)) (rows db)))
    by (rewrite Hf; now left).
  apply filter_In in Hin. destruct Hin as [Hin Hid].
  split; [exact Hin|]. simpl in Hid. now apply Z.eqb_eq.
Qed.

Lemma lookup_survives_step (db : database) (op : operation) (i : Z) (r' : row) :
  (i < id_seq db)%Z ->
  getCodeCheckpointById (apply_operation db op) i = Some r' ->
  exists r, getCodeCheckpointById db i = Some r
            /\ CodeCheckpoint.created_at r = CodeCheckpoint.created_at r'
            /\ CodeCheckpoint.id r = CodeCheckpoint.id r'.
Proof.
  intros Hi.
  destruct op as [now input|input|d]; cbn [apply_operation].
  - rewrite !getCodeCheckpointById_hd.
    cbn [createCodeCheckpoint fst rows].
    rewrite filter_id_app_fresh by (simpl; lia).
    intro H. now exists r'.
  - destruct (Z.eq_dec i (UpdateInput.id input)) as [He|He].
    + subst i. rewrite update_lookup_same, update_returned.
      destruct (getCodeCheckpointById db (UpdateInput.id input)) as [r|];
        [|discriminate].
      simpl. intro H. injection H as <-. now exists r.
    + rewrite update_lookup_other by exact He.
      intro H. now exists r'.
  - rewrite !getCodeCheckpointById_hd.
    unfold deleteCodeCheckpoint, sql_delete. cbn [fst rows].
    rewrite filter_id_after_delete.
    destruct (Z.eqb i d); [discriminate|].
    intro H. now exists r'.
Qed.

Lemma run_app (ops : list operation) (op : operation) (db : database) :
  run (ops ++ [op]) db = apply_operation (run ops db) op.
Proof. unfold run. now rewrite fold_left_app. Qed.

Lemma id_seq_monotone_run (ops : list operation) (db : database) :
  (id_seq db <= id_seq (run ops db))%Z.
Proof.
  revert db. induction ops as [|op ops IH]; intro db; [simpl; lia|].
  change (run (op :: ops) db) with (run ops (apply_operation db op)).
  specialize (IH (apply_operation db op)).
  pose proof (id_seq_monotone db op). lia.
Qed.

(** X14.  On a store whose ids are below the sequence: whatever creates,
    updates and deletes are run, a record that is found under an id
    before and after them has the creation time it had, and the id. *)
Theorem created_at_never_changes
        (db : database) (ops : list operation) (i : Z) (r r' : row) :
  sequence_ahead db ->
  getCodeCheckpointById db i = Some r ->
  getCodeCheckpointById (run ops db) i = Some r' ->
  CodeCheckpoint.created_at r' = CodeCheckpoint.created_at r
  /\ CodeCheckpoint.id r' = CodeCheckpoint.id r.
Proof.
  intros Hseq Hr.
  assert (Hi : (i < id_seq db)%Z).
  { apply getCodeCheckpointById_found in Hr. destruct Hr as [Hin Hid].
    unfold sequence_ahead in Hseq. rewrite Forall_forall in Hseq.
    specialize (Hseq _ Hin). lia. }
  revert r'. induction ops as [|op ops IH] using rev_ind; intros r' Hr'.
  - simpl in Hr'. rewrite Hr in Hr'. injection Hr' as <-. now split.
  - rewrite run_app in Hr'.
    apply lookup_survives_step in Hr'.
    + destruct Hr' as [r1 [H1 [Hc Hid]]].
      destruct (IH r1 H1) as [Hc1 Hid1]. split; congruence.
    + pose proof (id_seq_monotone_run ops db). lia.
Qed.

Lemma created_at_never_changes_witness :
  let ops := [OpUpdate (UpdateInput.mk 2 (Some "Renamed") None None None None
                                       (Some ["x"]) None);
              OpDelete 1;
              OpCreate 9000 (CreateInput.mk "t" "s" "c" "u" "Go" [] [])] in
  sequence_ahead test_db
  /\ (exists r r',
        getCodeCheckpointById test_db 2 = Some r
        /\ getCodeCheckpointById (run ops test_db) 2 = Some r'
        /\ CodeCheckpoint.title r' = "Renamed"
        /\ CodeCheckpoint.created_at r' = CodeCheckpoint.created_at r).
Proof.
  cbv zeta. split; [exact test_db_sequence_ahead|].
  eexists. eexists.
  split; [reflexivity|]. split; [reflexivity|]. split; [reflexivity|].
  exact (proj1 (@created_at_never_changes test_db
                  [OpUpdate (UpdateInput.mk 2 (Some "Renamed") None None None
                                            None (Some ["x"]) None);
                   OpDelete 1;
                   OpCreate 9000 (CreateInput.mk "t" "s" "c" "u" "Go" [] [])]
                  2 _ _ test_db_sequence_ahead eq_refl eq_refl)).
Defined.

(** X15.  With unique ids, looking an id up returns a record exactly when
    that record is stored under the id. *)
Theorem lookup_iff_stored (db : database) (i : Z) (r : row) :
  primary_key db ->
  (getCodeCheckpointById db i = Some r
   <-> In r (rows db) /\ CodeCheckpoint.id r = i).
Proof.
  intro Hpk. split; [apply getCodeCheckpointById_found|].
  intros [Hin Hid]. rewrite getCodeCheckpointById_hd.
  pose proof (primary_key_at_most_one i Hpk) as Hone.
  assert (Hf : In r (filter (holds (EqId i)) (rows db))).
  { apply filter_In. split; [exact Hin|]. simpl. now apply Z.eqb_eq. }
  destruct (filter (holds (EqId i)) (rows db)) as [|x [|y t]].
  - contradiction.
  - destruct Hf as [->|[]]. reflexivity.
  - simpl in Hone. lia.
Qed.

Lemma lookup_iff_stored_witness :
  primary_key test_db
  /\ (forall r, getCodeCheckpointById test_db 3 = Some r
                <-> In r (rows test_db) /\ CodeCheckpoint.id r = 3%Z).
Proof.
  split; [exact test_db_primary_key|].
  intro r. exact (@lookup_iff_stored test_db 3 r test_db_primary_key).
Defined.

(** ** The schemas, again *)

(** [updateCodeCheckpointInputSchema]: the parsed [id] (any number) and the
    fields that may be there. *)
Module UpdateFields.
Record t : Type := mk {
  title : option string;
  summary : option string;
  code_snippet : option string;
  user_feedback : option string;
  programming_language : option string;
  tags : option (list string);
  embedding : option (list Q)
}.
End UpdateFields.

Definition updateCodeCheckpointInputSchema (v : Zod.value)
  : Zod.result (Q * UpdateFields.t) :=
  match v with
  | Zod.VObject o =>
      let id := Zod.field "id" Zod.z_number o in
      let title := Zod.field "title" (Zod.z_optional Zod.z_string_min1) o in
      let summary := Zod.field "summary" (Zod.z_optional Zod.z_string_min1) o in
      let code_snippet :=
        Zod.field "code_snippet" (Zod.z_optional Zod.z_string_min1) o in
      let user_feedback :=
        Zod.field "user_feedback" (Zod.z_optional Zod.z_string_min1) o in
      let programming_language :=
        Zod.field "programming_language" (Zod.z_optional Zod.z_string_min1) o in
      let tags := Zod.field "tags" (Zod.z_optional (Zod.z_array Zod.z_string)) o in
      let embedding :=
        Zod.field "embedding" (Zod.z_optional (Zod.z_array Zod.z_number)) o in
      match id, title, summary, code_snippet, user_feedback,
            programming_language, tags, embedding with
      | inl i, inl t, inl s, inl c, inl u, inl p, inl g, inl e =>
          Zod.Valid (i, UpdateFields.mk t s c u p g e)
      | _, _, _, _, _, _, _, _ =>
          Zod.Invalid
            (Zod.issue_of id ++ Zod.issue_of title ++ Zod.issue_of summary
             ++ Zod.issue_of code_snippet ++ Zod.issue_of user_feedback
             ++ Zod.issue_of programming_language ++ Zod.issue_of tags
             ++ Zod.issue_of embedding)
      end
  | _ => Zod.Invalid [""]
  end.

(** The handler's input, for an [id] that is a key of the table. *)
Definition update_input (id : Z) (f : UpdateFields.t) : UpdateInput.t :=
  UpdateInput.mk id (UpdateFields.title f) (UpdateFields.summary f)
    (UpdateFields.code_snippet f) (UpdateFields.user_feedback f)
    (UpdateFields.programming_language f) (UpdateFields.tags f)
    (UpdateFields.embedding f).

(** A text field that is supplied is not empty. *)
Definition supplied_nonempty (o : option string) : bool :=
  match o with Some s => truthy s | None => true end.

Definition valid_update (input : UpdateInput.t) : bool :=
  supplied_nonempty (UpdateInput.title input)
  && supplied_nonempty (UpdateInput.summary input)
  && supplied_nonempty (UpdateInput.code_snippet input)
  && supplied_nonempty (UpdateInput.user_feedback input)
  && supplied_nonempty (UpdateInput.programming_language input).

Definition valid_create (input : CreateInput.t) : bool :=
  truthy (CreateInput.title input) && truthy (CreateInput.summary input)
  && truthy (CreateInput.code_snippet input)
  && truthy (CreateInput.user_feedback input)
  && truthy (CreateInput.programming_language input).

(** An operation whose input has passed its schema. *)
Definition valid_operation (op : operation) : bool :=
  match op with
  | OpCreate _ input => valid_create input
  | OpUpdate input => valid_update input
  | OpDelete _ => true
  end.

Lemma z_int_positive_nat (n : nat) :
  Zod.z_int_positive (Zod.VNumber (inject_Z (Z.of_nat n)))
  = match n with O => None | S _ => Some n end.
Proof.
  unfold Zod.z_int_positive, Zod.z_number, Zod.is_int, inject_Z.
  cbn [Qnum Qden]. rewrite Z.mod_1_r, Z.div_1_r, Nat2Z.id. cbn [Z.eqb andb].
  destruct n as [|n]; [reflexivity|].
  assert (H : (0 <? Z.of_nat (S n))%Z = true) by (apply Z.ltb_lt; lia).
  now rewrite H.
Qed.

Lemma z_int_nonnegative_nat (n : nat) :
  Zod.z_int_nonnegative (Zod.VNumber (inject_Z (Z.of_nat n))) = Some n.
Proof.
  unfold Zod.z_int_nonnegative, Zod.z_number, Zod.is_int, inject_Z.
  cbn [Qnum Qden]. rewrite Z.mod_1_r, Z.div_1_r, Nat2Z.id. cbn [Z.eqb andb].
  assert (H : (0 <=? Z.of_nat n)%Z = true) by (apply Z.leb_le; lia).
  now rewrite H.
Qed.

Lemma search_payload_parses
        (query : option string) (keywords : option (list string))
        (programming_language : option string) (tags : option (list string))
        (embedding : option (list Q)) (limit offset : option nat) :
  Zod.searchCodeCheckpointsInputSchema
    (search_payload query keywords programming_language tags embedding
                    limit offset)
  = match limit with
    | Some O => Zod.Invalid ["limit"]
    | _ =>
        Zod.Valid
          (SearchInput.mk query keywords programming_language tags embedding
             (match limit with Some n => n | None => 20%nat end)
             (match offset with Some n => n | None => 0%nat end))
    end.
Proof.
  unfold Zod.searchCodeCheckpointsInputSchema, search_payload, Zod.field,
    number_of_nat, optional_key.
  cbv zeta.
  destruct query as [q|], keywords as [k|], programming_language as [p|],
           tags as [g|], embedding as [e|], limit as [l|], offset as [f|];
    cbn [app optional_key Zod.lookup String.eqb Ascii.eqb Bool.eqb Zod.field
         Zod.z_optional Zod.z_default Zod.z_array Zod.z_string option_map
         number_of_nat];
    rewrite ?parse_items_strings, ?parse_items_numbers,
            ?z_int_positive_nat, ?z_int_nonnegative_nat;
    cbn [option_map];
    try (destruct l as [|l]); reflexivity.
Qed.

(** X16.  What a client encodes is what the search schema decodes: a
    payload built from the fields of a search input parses to that
    input, a left-out [limit] reads as 20 and a left-out [offset] as 0;
    only [limit: 0] is turned down, with the issue on [limit]. *)
Theorem search_payload_round_trip
        (query : option string) (keywords : option (list string))
        (programming_language : option string) (tags : option (list string))
        (embedding : option (list Q)) (limit offset : option nat) :
  Zod.searchCodeCheckpointsInputSchema
    (search_payload query keywords programming_language tags embedding
                    limit offset)
  = match limit with
    | Some O => Zod.Invalid ["limit"]
    | _ =>
        Zod.Valid
          (SearchInput.mk query keywords programming_language tags embedding
             (match limit with Some n => n | None => 20%nat end)
             (match offset with Some n => n | None => 0%nat end))
    end.
Proof.
  apply search_payload_parses.
Qed.

Lemma z_int_positive_at_least_one (v : Zod.value) (n : nat) :
  Zod.z_int_positive v = Some n -> (1 <= n)%nat.
Proof.
  unfold Zod.z_int_positive, Zod.z_number, Zod.is_int.
  destruct v as [| |b|q|s|l|o]; try discriminate.
  destruct (Z.eqb_spec (Qnum q mod Z.pos (Qden q)) 0) as [Hm|Hm];
    [|discriminate].
  destruct (Z.ltb_spec 0 (Qnum q)) as [Hp|Hp]; [|discriminate].
  cbn [andb]. intro H. injection H as <-.
  apply Z.div_exact in Hm; [|lia].
  assert (Hd : (0 < Qnum q / Z.pos (Qden q))%Z) by nia.
  lia.
Qed.

Lemma search_schema_limit (v : Zod.value) (input : SearchInput.t) :
  Zod.searchCodeCheckpointsInputSchema v = Zod.Valid input ->
  (1 <= SearchInput.limit input)%nat.
Proof.
  unfold Zod.searchCodeCheckpointsInputSchema.
  destruct v as [| |b|q|s|l|o]; try discriminate. cbv zeta.
  destruct (Zod.field "limit" _ o) as [n|k] eqn:Hl.
  - destruct (Zod.field "query" _ o), (Zod.field "keywords" _ o),
             (Zod.field "programming_language" _ o), (Zod.field "tags" _ o),
             (Zod.field "embedding" _ o), (Zod.field "offset" _ o);
      try discriminate.
    intro H. injection H as <-. cbn [SearchInput.limit].
    unfold Zod.field, Zod.z_default in Hl.
    destruct (Zod.lookup "limit" o) eqn:Hv;
      try (injection Hl as <-; lia);
      try (destruct (Zod.z_int_positive _) eqn:Hz; [|discriminate];
           injection Hl as <-;
           now apply z_int_positive_at_least_one in Hz).
  - destruct (Zod.field "query" _ o), (Zod.field "keywords" _ o),
             (Zod.field "programming_language" _ o), (Zod.field "tags" _ o),
             (Zod.field "embedding" _ o), (Zod.field "offset" _ o);
      discriminate.
Qed.

(** X17.  A search that the procedure lets through has a limit of at
    least 1: its page has at most [limit] rows, and it is not empty as
    long as the offset is below the total. *)
Theorem validated_search_page
        {engine : StorageEngine} (db : database) (v : Zod.value)
        (r : SearchResults.t) :
  procedure_searchCodeCheckpoints db v = Zod.Valid r ->
  exists input,
    Zod.searchCodeCheckpointsInputSchema v = Zod.Valid input
    /\ r = searchCodeCheckpoints db input
    /\ (1 <= SearchInput.limit input)%nat
    /\ (List.length (SearchResults.results r) <= SearchInput.limit input)%nat
    /\ ((SearchInput.offset input < SearchResults.total r)%nat ->
        SearchResults.results r <> []).
Proof.
  unfold procedure_searchCodeCheckpoints.
  destruct (Zod.searchCodeCheckpointsInputSchema v) as [input|issues] eqn:Hs;
    [|discriminate].
  intro H. injection H as <-. exists input.
  pose proof (search_schema_limit _ Hs) as Hl.
  split; [reflexivity|]. split; [reflexivity|]. split; [exact Hl|].
  rewrite search_results, search_total.
  rewrite (Permutation_length (ordered_matching_set_permutation db input)).
  split.
  - rewrite length_firstn. lia.
  - intros Ho Hnil. apply (f_equal (@List.length row)) in Hnil.
    rewrite length_firstn, length_skipn in Hnil. simpl in Hnil. lia.
Qed.

Lemma validated_search_page_witness :
  exists r,
    @procedure_searchCodeCheckpoints heap_order_engine test_db
       (search_payload None (Some ["react"]) None None None (Some 5%nat) None)
    = Zod.Valid r
    /\ SearchResults.results r <> [].
Proof.
  eexists. split; [reflexivity|].
  destruct (@validated_search_page heap_order_engine test_db
              (search_payload None (Some ["react"]) None None None
                              (Some 5%nat) None) _ eq_refl)
    as (input & Hs & _ & _ & _ & Hne).
  apply Hne. injection Hs as <-. vm_compute. reflexivity.
Defined.

Lemma field_min1_nonempty (k : string) (o : list (string * Zod.value))
      (s : string) :
  Zod.field k Zod.z_string_min1 o = inl s -> truthy s = true.
Proof.
  unfold Zod.field, Zod.z_string_min1, Zod.z_string.
  destruct (Zod.lookup k o) as [| |b|q|t|l|f]; try discriminate.
  destruct t as [|c t]; [discriminate|].
  cbn. intro H. injection H as <-. reflexivity.
Qed.

Lemma create_schema_outcome (v : Zod.value) :
  match Zod.createCodeCheckpointInputSchema v with
  | Zod.Valid input => valid_create input = true
  | Zod.Invalid issues => issues <> []
  end.
Proof.
  unfold Zod.createCodeCheckpointInputSchema.
  destruct v as [| |b0|q0|s0|l0|o]; try discriminate.
  cbv zeta.
  destruct (Zod.field "title" _ o) as [t|k1] eqn:Ht,
           (Zod.field "summary" _ o) as [s|k2] eqn:Hs,
           (Zod.field "code_snippet" _ o) as [c|k3] eqn:Hc,
           (Zod.field "user_feedback" _ o) as [u|k4] eqn:Hu,
           (Zod.field "programming_language" _ o) as [p|k5] eqn:Hp,
           (Zod.field "tags" _ o) as [g|k6],
           (Zod.field "embedding" _ o) as [e|k7];
    try (simpl; discriminate).
  unfold valid_create. cbn.
  apply field_min1_nonempty in Ht, Hs, Hc, Hu, Hp.
  now rewrite Ht, Hs, Hc, Hu, Hp.
Qed.

(** X18.  Whatever value the create procedure is sent: if it answers with
    a record, one row is appended, its id is the next of the sequence
    and its creation time the time of the insert (never anything from
    the payload), and its five text fields are non-empty; if the schema
    turns the value down, the store is as it was and at least one issue
    is reported; if the insert raises (a value that cannot be stored, the
    sequence at its end), the store is as it was. *)
Theorem create_procedure_outcome (now : Z) (db : database) (v : Zod.value) :
  match Call.procedure_createCodeCheckpoint now db v with
  | (db', Result created) =>
      CodeCheckpoint.id created = id_seq db
      /\ CodeCheckpoint.created_at created = now
      /\ db' = mkdb (rows db ++ [created]) (id_seq db + 1)
      /\ text_fields_nonempty created = true
  | (db', BadRequest issues) => db' = db /\ issues <> []
  | (db', ServerError) => db' = db
  end.
Proof.
  unfold Call.procedure_createCodeCheckpoint.
  pose proof (create_schema_outcome v) as Hv.
  destruct (Zod.createCodeCheckpointInputSchema v) as [input|issues];
    [|now split].
  unfold Call.createCodeCheckpoint.
  destruct (is_int4 (id_seq db) && Call.storable_create input);
    [|reflexivity].
  cbn [createCodeCheckpoint]. split; [reflexivity|].
  split; [reflexivity|]. split; [reflexivity|]. exact Hv.
Qed.

Lemma lookup_other_key (k k' : string) (v : Zod.value)
      (o : list (string * Zod.value)) :
  String.eqb k' k = false ->
  Zod.lookup k' ((k, v) :: o) = Zod.lookup k' o.
Proof. intro H. cbn [Zod.lookup]. now rewrite H. Qed.

(** X19.  A key that the create schema does not know is dropped, not
    refused: a payload with such a key in front is handled as the
    payload without it.  So [id] and [created_at] in a payload have no
    effect. *)
Theorem create_ignores_unknown_keys
        (now : Z) (db : database) (k : string) (v : Zod.value)
        (o : list (string * Zod.value)) :
  existsb (String.eqb k) create_keys = false ->
  procedure_createCodeCheckpoint now db (Zod.VObject ((k, v) :: o))
  = procedure_createCodeCheckpoint now db (Zod.VObject o).
Proof.
  intro H. cbn [existsb create_keys] in H.
  repeat (apply orb_false_elim in H; destruct H as [?H H]).
  unfold procedure_createCodeCheckpoint, Zod.createCodeCheckpointInputSchema,
    Zod.field.
  rewrite !lookup_other_key by (rewrite String.eqb_sym; assumption).
  reflexivity.
Qed.

Lemma create_ignores_unknown_keys_witness :
  existsb (String.eqb "id") create_keys = false
  /\ procedure_createCodeCheckpoint 1000 empty_db
       (Zod.VObject
          (("id", Zod.VNumber (inject_Z 77))
             :: [("title", Zod.VString "t"); ("summary", Zod.VString "s");
                 ("code_snippet", Zod.VString "c");
                 ("user_feedback", Zod.VString "u");
                 ("programming_language", Zod.VString "Go");
                 ("embedding", Zod.VArray [])]))
     = procedure_createCodeCheckpoint 1000 empty_db
         (Zod.VObject
            [("title", Zod.VString "t"); ("summary", Zod.VString "s");
             ("code_snippet", Zod.VString "c");
             ("user_feedback", Zod.VString "u");
             ("programming_language", Zod.VString "Go");
             ("embedding", Zod.VArray [])]).
Proof.
  split; [reflexivity|].
  apply create_ignores_unknown_keys. reflexivity.
Defined.

Lemma field_optional_min1 (k : string) (o : list (string * Zod.value))
      (x : option string) :
  Zod.field k (Zod.z_optional Zod.z_string_min1) o = inl x ->
  supplied_nonempty x = true.
Proof.
  unfold Zod.field, Zod.z_optional, Zod.z_string_min1, Zod.z_string.
  destruct (Zod.lookup k o) as [| |b|q|t|l|f]; try discriminate.
  - intro H. injection H as <-. reflexivity.
  - destruct t as [|c t]; [discriminate|].
    cbn. intro H. injection H as <-. reflexivity.
Qed.

(** X20.  An update payload that passes its schema supplies no empty
    text: each of the five text fields is either left out or a non-empty
    string. *)
Theorem update_schema_text_fields
        (v : Zod.value) (i : Q) (f : UpdateFields.t) (id : Z) :
  updateCodeCheckpointInputSchema v = Zod.Valid (i, f) ->
  valid_update (update_input id f) = true.
Proof.
  unfold updateCodeCheckpointInputSchema.
  destruct v as [| |b0|q0|s0|l0|o]; try discriminate.
  cbv zeta.
  destruct (Zod.field "id" _ o) as [n|k0],
           (Zod.field "title" _ o) as [t|k1] eqn:Ht,
           (Zod.field "summary" _ o) as [s|k2] eqn:Hs,
           (Zod.field "code_snippet" _ o) as [c|k3] eqn:Hc,
           (Zod.field "user_feedback" _ o) as [u|k4] eqn:Hu,
           (Zod.field "programming_language" _ o) as [p|k5] eqn:Hp,
           (Zod.field "tags" _ o) as [g|k6],
           (Zod.field "embedding" _ o) as [e|k7];
    try discriminate.
  intro H. injection H as <- <-.
  apply field_optional_min1 in Ht, Hs, Hc, Hu, Hp.
  unfold valid_update. cbn. now rewrite Ht, Hs, Hc, Hu, Hp.
Qed.

Lemma update_schema_text_fields_witness :
  let v := Zod.VObject [("id", Zod.VNumber (inject_Z 2));
                        ("title", Zod.VString "Renamed")] in
  let f := UpdateFields.mk (Some "Renamed") None None None None None None in
  updateCodeCheckpointInputSchema v = Zod.Valid (inject_Z 2, f)
  /\ valid_update (update_input 2 f) = true
  /\ updateCodeCheckpointInputSchema
       (Zod.VObject [("id", Zod.VNumber (inject_Z 2));
                     ("title", Zod.VString "")])
     = Zod.Invalid ["title"].
Proof.
  cbv zeta. split; [reflexivity|]. split; [|reflexivity].
  exact (@update_schema_text_fields
           (Zod.VObject [("id", Zod.VNumber (inject_Z 2));
                         ("title", Zod.VString "Renamed")])
           (inject_Z 2) _ 2 eq_refl).
Defined.

Lemma set_fields_text_nonempty (input : UpdateInput.t) (r : row) :
  valid_update input = true ->
  text_fields_nonempty r = true ->
  text_fields_nonempty (set_fields input r) = true.
Proof.
  unfold valid_update, text_fields_nonempty, set_fields, supplied_nonempty,
    overwrite.
  destruct input as [i t s c u p g e], r as [ri rt rs rc ru rp rg re ra].
  cbn. rewrite !andb_true_iff.
  destruct t, s, c, u, p; tauto.
Qed.

Lemma text_nonempty_step (db : database) (op : operation) :
  valid_operation op = true ->
  forallb text_fields_nonempty (rows db) = true ->
  forallb text_fields_nonempty (rows (apply_operation db op)) = true.
Proof.
  intros Hop Hdb. destruct op as [now input|input|id]; cbn [apply_operation].
  - cbn [createCodeCheckpoint fst rows]. rewrite forallb_app, Hdb.
    cbn [forallb andb]. rewrite andb_true_r. exact Hop.
  - rewrite forallb_forall in *. intros x Hx.
    apply (Permutation_in _ (Permutation_sym
                               (update_rows_permutation db input))) in Hx.
    apply in_map_iff in Hx. destruct Hx as [r [<- Hr]].
    destruct (holds (EqId (UpdateInput.id input)) r).
    + apply set_fields_text_nonempty; [exact Hop | now apply Hdb].
    + now apply Hdb.
  - unfold deleteCodeCheckpoint, sql_delete. cbn [fst rows].
    rewrite forallb_forall in *. intros x Hx.
    apply filter_In in Hx. now apply Hdb.
Qed.

(** X21.  The text columns never become empty: when every stored row has
    its five text fields non-empty, it is still so after any creates,
    updates and deletes whose inputs have passed their schemas. *)
Theorem text_fields_stay_nonempty (db : database) (ops : list operation) :
  forallb valid_operation ops = true ->
  forallb text_fields_nonempty (rows db) = true ->
  forallb text_fields_nonempty (rows (run ops db)) = true.
Proof.
  revert db. induction ops as [|op ops IH]; intros db Hops Hdb; [exact Hdb|].
  cbn [forallb] in Hops. apply andb_prop in Hops. destruct Hops as [Hop Hops].
  change (run (op :: ops) db) with (run ops (apply_operation db op)).
  apply IH; [exact Hops|]. now apply text_nonempty_step.
Qed.

Lemma text_fields_stay_nonempty_witness :
  let ops := [OpUpdate (only_title 2 "Renamed"); OpDelete 1;
              OpCreate 9000 (CreateInput.mk "t" "s" "c" "u" "Go" [] [])] in
  forallb valid_operation ops = true
  /\ forallb text_fields_nonempty (rows test_db) = true
  /\ forallb text_fields_nonempty (rows (run ops test_db)) = true.
Proof.
  cbv zeta. split; [reflexivity|]. split; [reflexivity|].
  apply text_fields_stay_nonempty; reflexivity.
Defined.

(* ================================================================= *)
(** ** The client: [client/src/App.tsx], [components/SearchInterface.tsx] *)

(** [array.includes(s)] on strings. *)
Definition includes (l : list string) (s : string) : bool :=
  existsb (String.eqb s) l.

(** [array.filter(x => x !== s)] *)
Definition without (l : list string) (s : string) : list string :=
  filter (fun x => negb (String.eqb x s)) l.

(** [value || undefined] on a string. *)
Definition or_undefined (value : string) : option string :=
  if truthy value then Some value else None.

(** The create form of [App.tsx].  [trim] is [String.prototype.trim];
    [dummy] is what [generateDummyEmbedding()] returns. *)
Module App.

Record state : Type := mk {
  checkpoints : list row;
  formData : CreateInput.t;
  newTag : string
}.

Definition with_form_tags (f : CreateInput.t) (tags : list string)
  : CreateInput.t :=
  CreateInput.mk (CreateInput.title f) (CreateInput.summary f)
    (CreateInput.code_snippet f) (CreateInput.user_feedback f)
    (CreateInput.programming_language f) tags (CreateInput.embedding f).

Definition empty_form : CreateInput.t :=
  CreateInput.mk "" "" "" "" "" [] [].

Section WithTrim.

Variable trim : string -> string.

Definition addTag (st : state) : state :=
  let t := trim (newTag st) in
  if truthy t && negb (includes (CreateInput.tags (formData st)) t) then
    mk (checkpoints st)
       (with_form_tags (formData st) (CreateInput.tags (formData st) ++ [t]))
       ""
  else st.

Definition removeTag (tagToRemove : string) (st : state) : state :=
  mk (checkpoints st)
     (with_form_tags (formData st)
                     (without (CreateInput.tags (formData st)) tagToRemove))
     (newTag st).

End WithTrim.

(** [handleSubmit]: the form with a dummy embedding goes to the create
    procedure; the response is put in front of the list and the form is
    reset, or, when the call throws, nothing is set. *)
Definition handleSubmit (dummy : list Q) (now : Z) (db : database) (st : state)
  : database * state :=
  let f := formData st in
  let checkpointData :=
    create_payload (CreateInput.title f) (CreateInput.summary f)
      (CreateInput.code_snippet f) (CreateInput.user_feedback f)
      (CreateInput.programming_language f)
      (Some (CreateInput.tags f)) (Some dummy) in
  match Call.procedure_createCodeCheckpoint now db checkpointData with
  | (db', Result response) =>
      (db', mk (response :: checkpoints st) empty_form (newTag st))
  | (db', _) => (db', st)
  end.

(** [handleSearch]: [{ ...searchData, embedding: searchData.query ?
    generateDummyEmbedding() : undefined }]. *)
Definition searchParams (dummy : list Q) (searchData : SearchInput.t)
  : SearchInput.t :=
  with_embedding searchData
    (match SearchInput.query searchData with
     | Some q => if truthy q then Some dummy else None
     | None => None
     end).

(** The call [trpc.searchCodeCheckpoints.query(searchParams)]. *)
Definition handleSearch {engine : StorageEngine} (dummy : list Q)
           (db : database) (searchData : SearchInput.t)
  : Zod.result SearchResults.t :=
  let p := searchParams dummy searchData in
  procedure_searchCodeCheckpoints db
    (search_payload (SearchInput.query p) (SearchInput.keywords p)
       (SearchInput.programming_language p) (SearchInput.tags p)
       (SearchInput.embedding p)
       (Some (SearchInput.limit p)) (Some (SearchInput.offset p))).

End App.

(** [{ ...formData, embedding: generateDummyEmbedding() }] *)
Definition with_dummy (f : CreateInput.t) (dummy : list Q) : CreateInput.t :=
  CreateInput.mk (CreateInput.title f) (CreateInput.summary f)
    (CreateInput.code_snippet f) (CreateInput.user_feedback f)
    (CreateInput.programming_language f) (CreateInput.tags f) dummy.

(** The search form of [SearchInterface.tsx]. *)
Module SearchInterface.

Record state : Type := mk {
  searchData : SearchInput.t;
  newKeyword : string;
  newTag : string
}.

(** [useState] initial values, and what [clearAllFilters] sets. *)
Definition cleared : SearchInput.t :=
  SearchInput.mk (Some "") (Some []) (Some "") (Some []) None 20 0.

Definition initial : state := mk cleared "" "".

(** [list || []] *)
Definition or_empty (l : option (list string)) : list string :=
  match l with Some x => x | None => [] end.

(** [!list?.includes(s)] *)
Definition not_included (l : option (list string)) (s : string) : bool :=
  match l with Some x => negb (includes x s) | None => true end.

(** [list?.filter(x => x !== s) || []] *)
Definition filtered (l : option (list string)) (s : string) : list string :=
  match l with Some x => without x s | None => [] end.

Definition with_query (d : SearchInput.t) (q : option string) : SearchInput.t :=
  SearchInput.mk q (SearchInput.keywords d)
    (SearchInput.programming_language d) (SearchInput.tags d)
    (SearchInput.embedding d) (SearchInput.limit d) (SearchInput.offset d).

Section WithTrim.

Variable trim : string -> string.

Definition addKeyword (st : state) : state :=
  let k := trim (newKeyword st) in
  if truthy k && not_included (SearchInput.keywords (searchData st)) k then
    mk (with_keywords (searchData st)
          (Some (or_empty (SearchInput.keywords (searchData st)) ++ [k])))
       "" (newTag st)
  else st.

Definition removeKeyword (keywordToRemove : string) (st : state) : state :=
  mk (with_keywords (searchData st)
        (Some (filtered (SearchInput.keywords (searchData st)) keywordToRemove)))
     (newKeyword st) (newTag st).

Definition addTag (st : state) : state :=
  let t := trim (newTag st) in
  if truthy t && not_included (SearchInput.tags (searchData st)) t then
    mk (with_tags (searchData st)
          (Some (or_empty (SearchInput.tags (searchData st)) ++ [t])))
       (newKeyword st) ""
  else st.

Definition removeTag (tagToRemove : string) (st : state) : state :=
  mk (with_tags (searchData st)
        (Some (filtered (SearchInput.tags (searchData st)) tagToRemove)))
     (newKeyword st) (newTag st).

Definition clearAllFilters (st : state) : state :=
  mk cleared (newKeyword st) (newTag st).

(** [searchData.query || (keywords && keywords.length > 0)
     || (tags && tags.length > 0) || searchData.programming_language],
    as a condition. *)
Definition truthy_opt (o : option string) : bool :=
  match o with Some s => truthy s | None => false end.

Definition nonempty_opt (o : option (list string)) : bool :=
  match o with Some l => (0 <? List.length l)%nat | None => false end.

Definition hasActiveFilters (st : state) : bool :=
  truthy_opt (SearchInput.query (searchData st))
  || nonempty_opt (SearchInput.keywords (searchData st))
  || nonempty_opt (SearchInput.tags (searchData st))
  || truthy_opt (SearchInput.programming_language (searchData st)).

(** What the user can do to the form. *)
Inductive event : Type :=
| SetQuery (value : string)       (* query: e.target.value || undefined *)
| SetLanguage (value : string)    (* programming_language: value || undefined *)
| SetNewKeyword (value : string)
| SetNewTag (value : string)
| AddKeyword
| RemoveKeyword (keyword : string)
| AddTag
| RemoveTag (tag : string)
| ClearAllFilters.

Definition handle (st : state) (ev : event) : state :=
  match ev with
  | SetQuery value =>
      mk (with_query (searchData st) (or_undefined value))
         (newKeyword st) (newTag st)
  | SetLanguage value =>
      mk (with_language (searchData st) (or_undefined value))
         (newKeyword st) (newTag st)
  | SetNewKeyword value => mk (searchData st) value (newTag st)
  | SetNewTag value => mk (searchData st) (newKeyword st) value
  | AddKeyword => addKeyword st
  | RemoveKeyword k => removeKeyword k st
  | AddTag => addTag st
  | RemoveTag t => removeTag t st
  | ClearAllFilters => clearAllFilters st
  end.

Definition after (evs : list event) : state := fold_left handle evs initial.

End WithTrim.

End SearchInterface.

(** ** Lists of tags and keywords in the forms *)

Lemma includes_In (l : list string) (s : string) :
  includes l s = true <-> In s l.
Proof.
  unfold includes. rewrite existsb_exists. split.
  - intros [x [Hin Heq]]. apply String.eqb_eq in Heq. now subst.
  - intro Hin. exists s. split; [exact Hin | apply String.eqb_refl].
Qed.

Lemma without_In (l : list string) (s x : string) :
  In x (without l s) <-> In x l /\ x <> s.
Proof.
  unfold without. rewrite filter_In, negb_true_iff, String.eqb_neq. tauto.
Qed.

Lemma truthy_not_empty (s : string) : truthy s = true -> s <> "".
Proof. destruct s; [discriminate | discriminate]. Qed.

Lemma NoDup_snoc {A} (l : list A) (x : A) :
  NoDup l -> ~ In x l -> NoDup (l ++ [x]).
Proof.
  intros Hl Hx. apply NoDup_app; [exact Hl | repeat constructor; intros [] |].
  intros a Ha [<-|[]]. contradiction.
Qed.

(** A list of tags or keywords as the forms keep it: no entry twice, no
    empty entry. *)
Definition distinct_nonempty (l : list string) : Prop :=
  NoDup l /\ ~ In "" l.

Lemma distinct_nonempty_add (l : list string) (s : string) :
  distinct_nonempty l -> truthy s = true -> includes l s = false ->
  distinct_nonempty (l ++ [s]).
Proof.
  intros [Hnd Hne] Hs Hin. split.
  - apply NoDup_snoc; [exact Hnd|].
    intro H. apply includes_In in H. congruence.
  - intro H. apply in_app_or in H. destruct H as [H|[H|[]]]; [contradiction|].
    now apply (truthy_not_empty Hs).
Qed.

Lemma distinct_nonempty_without (l : list string) (s : string) :
  distinct_nonempty l -> distinct_nonempty (without l s).
Proof.
  intros [Hnd Hne]. split.
  - now apply NoDup_filter.
  - intro H. apply without_In in H. tauto.
Qed.

(** X22.  The tag list of the create form never gets an entry twice nor
    an empty entry: [addTag] appends the trimmed text only when it is
    non-empty and not yet there (and then clears the input), and
    [removeTag] takes out the tag asked for and nothing else. *)
Theorem form_tags_stay_distinct
        (trim : string -> string) (st : App.state) (t : string) :
  let tags := fun s : App.state => CreateInput.tags (App.formData s) in
  distinct_nonempty (tags st) ->
  distinct_nonempty (tags (App.addTag trim st))
  /\ distinct_nonempty (tags (App.removeTag t st))
  /\ (forall x, In x (tags (App.addTag trim st))
                <-> In x (tags st)
                    \/ (x = trim (App.newTag st) /\ x <> ""))
  /\ (forall x, In x (tags (App.removeTag t st))
                <-> In x (tags st) /\ x <> t).
Proof.
  cbv zeta. intro H. unfold App.addTag, App.removeTag.
  cbn [App.formData App.with_form_tags CreateInput.tags].
  split; [|split; [|split]].
  - destruct (truthy (trim (App.newTag st))) eqn:Ht; [|exact H].
    destruct (includes _ (trim (App.newTag st))) eqn:Hi; [exact H|].
    cbn. now apply distinct_nonempty_add.
  - now apply distinct_nonempty_without.
  - intro x.
    destruct (truthy (trim (App.newTag st))) eqn:Ht; cbn [andb].
    + destruct (includes _ (trim (App.newTag st))) eqn:Hi; cbn [negb].
      * apply includes_In in Hi. split; [tauto|].
        intros [Hx|[-> _]]; assumption.
      * cbn. rewrite in_app_iff. cbn [In].
        pose proof (truthy_not_empty Ht). split.
        -- intros [Hx|[<-|[]]]; [now left | right; now split].
        -- intros [Hx|[-> _]]; [now left | right; now left].
    + split; [tauto|]. intros [Hx|[-> Hne]]; [exact Hx|].
      destruct (trim (App.newTag st)); [contradiction | discriminate].
  - intro x. apply without_In.
Qed.

Lemma form_tags_stay_distinct_witness :
  let st := App.mk [] (CreateInput.mk "t" "s" "c" "u" "Go" ["api"] []) "hooks" in
  distinct_nonempty (CreateInput.tags (App.formData st))
  /\ distinct_nonempty
       (CreateInput.tags (App.formData (App.addTag (fun s => s) st)))
  /\ CreateInput.tags (App.formData (App.addTag (fun s => s) st))
     = ["api"; "hooks"].
Proof.
  cbv zeta.
  assert (H : distinct_nonempty ["api"]).
  { split; [repeat constructor; intros [] | intros [H|[]]; discriminate]. }
  split; [exact H|]. split; [|reflexivity].
  exact (proj1 (@form_tags_stay_distinct (fun s => s)
                  (App.mk [] (CreateInput.mk "t" "s" "c" "u" "Go" ["api"] [])
                          "hooks") "" H)).
Defined.

Lemma create_payload_schema
      (title summary code_snippet user_feedback programming_language : string)
      (tags : list string) (embedding : list Q) :
  Zod.createCodeCheckpointInputSchema
    (create_payload title summary code_snippet user_feedback
                    programming_language (Some tags) (Some embedding))
  = if truthy title && truthy summary && truthy code_snippet
       && truthy user_feedback && truthy programming_language
    then
      Zod.Valid (CreateInput.mk title summary code_snippet user_feedback
                                programming_language tags embedding)
    else
      Zod.Invalid (create_issues title summary code_snippet
                     user_feedback programming_language (Some embedding)).
Proof.
  unfold Zod.createCodeCheckpointInputSchema,
    create_payload, create_issues, Zod.field.
  cbv zeta.
  cbn [app Zod.lookup String.eqb Ascii.eqb Bool.eqb Zod.z_default Zod.z_array].
  rewrite parse_items_strings, parse_items_numbers, !z_string_min1_truthy.
  destruct (truthy title), (truthy summary), (truthy code_snippet),
           (truthy user_feedback), (truthy programming_language);
    reflexivity.
Qed.

(** X23.  Submitting the create form: when the five text fields are
    non-empty, the sequence is in the range of the column and the texts,
    the tags and the generated numbers can be stored, one row is stored, with
    the form's texts and tags and an embedding of as many numbers as were
    generated (not the form's own), the response is put in front of the
    list and the form is emptied; otherwise neither the store nor the
    list nor the form changes. *)
Theorem submit_outcome
        (dummy : list Q) (now : Z) (db : database) (st : App.state) :
  let f := App.formData st in
  let (db', st') := App.handleSubmit dummy now db st in
  if valid_create f && is_int4 (id_seq db)
     && Call.storable_create (with_dummy f dummy)
  then
    exists created : row,
      db' = mkdb (rows db ++ [created]) (id_seq db + 1)
      /\ st' = App.mk (created :: App.checkpoints st) App.empty_form
                      (App.newTag st)
      /\ CodeCheckpoint.id created = id_seq db
      /\ CodeCheckpoint.created_at created = now
      /\ CodeCheckpoint.title created = CreateInput.title f
      /\ CodeCheckpoint.summary created = CreateInput.summary f
      /\ CodeCheckpoint.code_snippet created = CreateInput.code_snippet f
      /\ CodeCheckpoint.user_feedback created = CreateInput.user_feedback f
      /\ CodeCheckpoint.programming_language created
         = CreateInput.programming_language f
      /\ CodeCheckpoint.tags created = CreateInput.tags f
      /\ List.length (CodeCheckpoint.embedding created) = List.length dummy
  else db' = db /\ st' = st.
Proof.
  cbv zeta. unfold App.handleSubmit, Call.procedure_createCodeCheckpoint.
  cbv zeta. rewrite create_payload_schema. unfold valid_create.
  destruct (truthy (CreateInput.title (App.formData st))
            && truthy (CreateInput.summary (App.formData st))
            && truthy (CreateInput.code_snippet (App.formData st))
            && truthy (CreateInput.user_feedback (App.formData st))
            && truthy (CreateInput.programming_language (App.formData st)));
    [|now split].
  unfold Call.createCodeCheckpoint. fold (with_dummy (App.formData st) dummy).
  cbn [andb].
  destruct (is_int4 (id_seq db) && Call.storable_create
                                     (with_dummy (App.formData st) dummy));
    [|now split].
  cbn [createCodeCheckpoint andb]. eexists.
  split; [reflexivity|]. split; [reflexivity|].
  cbn. repeat split. unfold real_array. apply length_map.
Qed.

(** ** The search form *)

(** The search input as the form keeps it. *)
Definition tidy (d : SearchInput.t) : Prop :=
  SearchInput.limit d = 20%nat
  /\ SearchInput.offset d = 0%nat
  /\ SearchInput.embedding d = None
  /\ distinct_nonempty (SearchInterface.or_empty (SearchInput.keywords d))
  /\ distinct_nonempty (SearchInterface.or_empty (SearchInput.tags d)).

Lemma not_included_spec (l : option (list string)) (s : string) :
  SearchInterface.not_included l s = true ->
  includes (SearchInterface.or_empty l) s = false.
Proof.
  destruct l as [x|]; simpl; [|reflexivity].
  intro H. now apply negb_true_iff.
Qed.

Lemma filtered_without (l : option (list string)) (s : string) :
  SearchInterface.filtered l s = without (SearchInterface.or_empty l) s.
Proof. now destruct l. Qed.

Lemma tidy_step (trim : string -> string) (st : SearchInterface.state)
      (ev : SearchInterface.event) :
  tidy (SearchInterface.searchData st) ->
  tidy (SearchInterface.searchData (SearchInterface.handle trim st ev)).
Proof.
  intros (Hl & Ho & He & Hk & Ht).
  destruct ev as [v|v|v|v| |k| |t| ]; cbn [SearchInterface.handle].
  - repeat split; assumption || apply Hk || apply Ht.
  - repeat split; assumption || apply Hk || apply Ht.
  - repeat split; assumption || apply Hk || apply Ht.
  - repeat split; assumption || apply Hk || apply Ht.
  - unfold SearchInterface.addKeyword.
    destruct (truthy _) eqn:Hv; cbn [andb];
      [|repeat split; assumption || apply Hk || apply Ht].
    destruct (SearchInterface.not_included _ _) eqn:Hn;
      [|repeat split; assumption || apply Hk || apply Ht].
    cbn [SearchInterface.searchData].
    split; [exact Hl|]. split; [exact Ho|]. split; [exact He|].
    split; [|exact Ht].
    cbn [with_keywords SearchInput.keywords SearchInterface.or_empty].
    apply distinct_nonempty_add;
      [exact Hk | exact Hv | now apply not_included_spec].
  - cbn [SearchInterface.removeKeyword SearchInterface.searchData].
    split; [exact Hl|]. split; [exact Ho|]. split; [exact He|].
    split; [|exact Ht].
    cbn [with_keywords SearchInput.keywords SearchInterface.or_empty].
    rewrite filtered_without. now apply distinct_nonempty_without.
  - unfold SearchInterface.addTag.
    destruct (truthy _) eqn:Hv; cbn [andb];
      [|repeat split; assumption || apply Hk || apply Ht].
    destruct (SearchInterface.not_included _ _) eqn:Hn;
      [|repeat split; assumption || apply Hk || apply Ht].
    cbn [SearchInterface.searchData].
    split; [exact Hl|]. split; [exact Ho|]. split; [exact He|].
    split; [exact Hk|].
    cbn [with_tags SearchInput.tags SearchInterface.or_empty].
    apply distinct_nonempty_add;
      [exact Ht | exact Hv | now apply not_included_spec].
  - cbn [SearchInterface.removeTag SearchInterface.searchData].
    split; [exact Hl|]. split; [exact Ho|]. split; [exact He|].
    split; [exact Hk|].
    cbn [with_tags SearchInput.tags SearchInterface.or_empty].
    rewrite filtered_without. now apply distinct_nonempty_without.
  - cbn. repeat split; try constructor; intros [].
Qed.

Lemma tidy_after (trim : string -> string) (evs : list SearchInterface.event) :
  tidy (SearchInterface.searchData (SearchInterface.after trim evs)).
Proof.
  unfold SearchInterface.after.
  assert (H : tidy (SearchInterface.searchData SearchInterface.initial)).
  { cbn. repeat split; try constructor; intros []. }
  revert H. generalize SearchInterface.initial.
  induction evs as [|ev evs IH]; intros st H; [exact H|].
  simpl. apply IH. now apply tidy_step.
Qed.

(** X24.  Whatever the user does to the search form, in whatever order,
    the search input it holds asks for the first page of 20, carries no
    embedding of its own, and its keywords and its tags have no entry
    twice and no empty entry. *)
Theorem search_form_stays_tidy
        (trim : string -> string) (evs : list SearchInterface.event) :
  let d := SearchInterface.searchData (SearchInterface.after trim evs) in
  SearchInput.limit d = 20%nat
  /\ SearchInput.offset d = 0%nat
  /\ SearchInput.embedding d = None
  /\ NoDup (SearchInterface.or_empty (SearchInput.keywords d))
  /\ ~ In "" (SearchInterface.or_empty (SearchInput.keywords d))
  /\ NoDup (SearchInterface.or_empty (SearchInput.tags d))
  /\ ~ In "" (SearchInterface.or_empty (SearchInput.tags d)).
Proof.
  cbv zeta. destruct (tidy_after trim evs) as (Hl & Ho & He & [H1 H2] & [H3 H4]).
  repeat split; assumption.
Qed.

Lemma handleSearch_valid {engine : StorageEngine} (dummy : list Q)
      (db : database) (d : SearchInput.t) :
  (1 <= SearchInput.limit d)%nat ->
  App.handleSearch dummy db d
  = Zod.Valid (searchCodeCheckpoints db (App.searchParams dummy d)).
Proof.
  intro Hl. unfold App.handleSearch, procedure_searchCodeCheckpoints. cbv zeta.
  rewrite search_payload_parses.
  change (SearchInput.limit (App.searchParams dummy d))
    with (SearchInput.limit d).
  destruct (SearchInput.limit d) as [|n] eqn:Hn; [lia|].
  rewrite <- Hn. reflexivity.
Qed.

(** X25.  Every search the form can send passes the server's validation,
    and the answer has at most 20 rows, taken from offset 0. *)
Theorem form_search_is_accepted
        {engine : StorageEngine} (trim : string -> string)
        (evs : list SearchInterface.event) (dummy : list Q) (db : database) :
  let d := SearchInterface.searchData (SearchInterface.after trim evs) in
  let r := searchCodeCheckpoints db (App.searchParams dummy d) in
  App.handleSearch dummy db d = Zod.Valid r
  /\ (List.length (SearchResults.results r) <= 20)%nat
  /\ SearchResults.results r
     = firstn 20 (ordered_matching_set db (App.searchParams dummy d)).
Proof.
  cbv zeta. destruct (tidy_after trim evs) as (Hl & Ho & _).
  split; [apply handleSearch_valid; lia|].
  rewrite search_results.
  change (SearchInput.limit (App.searchParams dummy _))
    with (SearchInput.limit
            (SearchInterface.searchData (SearchInterface.after trim evs))).
  change (SearchInput.offset (App.searchParams dummy _))
    with (SearchInput.offset
            (SearchInterface.searchData (SearchInterface.after trim evs))).
  rewrite Hl, Ho. cbn [skipn]. split; [|reflexivity].
  rewrite length_firstn. lia.
Qed.

(** X26.  When the form shows no active filter (no query, no keyword, no
    tag, no language, be they left out or empty), the search that is
    sent has no predicate and no embedding: it counts every stored row
    and returns its page of all rows, newest first. *)
Theorem no_active_filter_searches_everything
        {engine : StorageEngine} (dummy : list Q) (db : database)
        (st : SearchInterface.state) :
  SearchInterface.hasActiveFilters st = false ->
  let p := App.searchParams dummy (SearchInterface.searchData st) in
  let r := searchCodeCheckpoints db p in
  conditions p = []
  /\ SearchInput.embedding p = None
  /\ SearchResults.total r = List.length (rows db)
  /\ SearchResults.results r
     = firstn (SearchInput.limit p)
         (skipn (SearchInput.offset p) (order_by created_at_desc (rows db))).
Proof.
  unfold SearchInterface.hasActiveFilters. intro H.
  apply orb_false_elim in H. destruct H as [H Hl].
  apply orb_false_elim in H. destruct H as [H Ht].
  apply orb_false_elim in H. destruct H as [Hq Hk].
  destruct st as [[q k l t e lim off] nk nt].
  cbn [SearchInterface.searchData SearchInput.query SearchInput.keywords
       SearchInput.tags SearchInput.programming_language] in *.
  cbv zeta.
  assert (Hc : conditions (App.searchParams dummy
                             (SearchInput.mk q k l t e lim off)) = []).
  { unfold conditions, language_conditions, tag_conditions, keyword_conditions.
    cbn [App.searchParams with_embedding SearchInput.programming_language
         SearchInput.tags SearchInput.keywords SearchInput.query].
    unfold SearchInterface.truthy_opt, SearchInterface.nonempty_opt in *.
    destruct l as [l|]; [rewrite Hl|];
      (destruct t as [t|]; [rewrite Ht|]);
      (destruct k as [k|]; [rewrite Hk|]); reflexivity. }
  assert (He : SearchInput.embedding
                 (App.searchParams dummy (SearchInput.mk q k l t e lim off))
               = None).
  { unfold App.searchParams. cbn.
    unfold SearchInterface.truthy_opt in Hq.
    destruct q as [q|]; [now rewrite Hq | reflexivity]. }
  split; [exact Hc|]. split; [exact He|].
  rewrite search_total, search_results.
  unfold ordered_matching_set, ranking_embedding. rewrite He.
  rewrite (@matching_set_no_conditions db _ Hc). now split.
Qed.

Lemma no_active_filter_searches_everything_witness :
  let st := SearchInterface.clearAllFilters
              (SearchInterface.mk
                 (SearchInput.mk (Some "hooks") (Some ["react"]) (Some "Go")
                                 None None 20 0) "" "") in
  SearchInterface.hasActiveFilters st = false
  /\ SearchResults.total
       (@searchCodeCheckpoints heap_order_engine test_db
          (App.searchParams [] (SearchInterface.searchData st)))
     = 4%nat.
Proof.
  cbv zeta. split; [reflexivity|].
  destruct (@no_active_filter_searches_everything heap_order_engine [] test_db
              (SearchInterface.clearAllFilters
                 (SearchInterface.mk
                    (SearchInput.mk (Some "hooks") (Some ["react"]) (Some "Go")
                                    None None 20 0) "" ""))
              eq_refl) as (_ & _ & Ht & _).
  exact Ht.
Defined.

(** X27.  The text of the query plays no part in a search: the handler
    returns the same for every [query], and in the client two non-empty
    queries, given the same generated vector, send searches with the
    same answer. *)
Theorem query_text_plays_no_part
        {engine : StorageEngine} (db : database) (input : SearchInput.t)
        (q : option string) (dummy : list Q)
        (c1 c2 : ascii) (s1 s2 : string) :
  searchCodeCheckpoints db (SearchInterface.with_query input q)
  = searchCodeCheckpoints db input
  /\ searchCodeCheckpoints db
       (App.searchParams dummy
          (SearchInterface.with_query input (Some (String c1 s1))))
     = searchCodeCheckpoints db
         (App.searchParams dummy
            (SearchInterface.with_query input (Some (String c2 s2)))).
Proof. split; reflexivity. Qed.

(** ** How the filters combine *)

(** X28.  The three kinds of filter combine with AND: a row is in the
    matching set of a search exactly when it is in the matching set of
    its language filter alone, of its tags filter alone and of its
    keywords alone. *)
Theorem filter_categories_combine_with_and
        (db : database) (input : SearchInput.t) (r : row) :
  let language_only :=
    SearchInput.mk None None (SearchInput.programming_language input)
                   None None 20 0 in
  let tags_only :=
    SearchInput.mk None None None (SearchInput.tags input) None 20 0 in
  let keywords_only :=
    SearchInput.mk None (SearchInput.keywords input) None None None 20 0 in
  In r (matching_set db input)
  <-> In r (matching_set db language_only)
      /\ In r (matching_set db tags_only)
      /\ In r (matching_set db keywords_only).
Proof.
  cbv zeta. rewrite !matching_set_filter, !filter_In, !matches_split.
  change (language_conditions
            (SearchInput.mk None None (SearchInput.programming_language input)
                            None None 20 0))
    with (language_conditions input).
  change (tag_conditions
            (SearchInput.mk None None None (SearchInput.tags input) None 20 0))
    with (tag_conditions input).
  change (keyword_conditions
            (SearchInput.mk None (SearchInput.keywords input) None None None
                            20 0))
    with (keyword_conditions input).
  cbn [language_conditions tag_conditions keyword_conditions
       SearchInput.programming_language SearchInput.tags SearchInput.keywords
       forallb andb].
  rewrite !andb_true_r, !andb_true_iff. tauto.
Qed.

(** X29.  Asking for one more tag can only add rows to the matching set
    of a search that already asks for a tag; asking for one more keyword
    can only take rows away. *)
Theorem more_tags_widen_more_keywords_narrow
        (db : database) (input : SearchInput.t)
        (t t0 : string) (ts : list string)
        (k : string) (ks : list string) (r : row) :
  (In r (matching_set db (with_tags input (Some (t0 :: ts)))) ->
   In r (matching_set db (with_tags input (Some (t :: t0 :: ts)))))
  /\ (In r (matching_set db (with_keywords input (Some (k :: ks)))) ->
      In r (matching_set db (with_keywords input (Some ks)))).
Proof.
  rewrite !matching_set_filter, !filter_In, !matches_split.
  rewrite !tag_conditions_hold.
  change (language_conditions (with_tags input _))
    with (language_conditions input).
  change (keyword_conditions (with_tags input _))
    with (keyword_conditions input).
  change (language_conditions (with_keywords input _))
    with (language_conditions input).
  change (tag_conditions (with_keywords input _))
    with (tag_conditions input).
  rewrite keyword_conditions_hold.
  split.
  - intros [Hin H]. split; [exact Hin|].
    apply andb_prop in H. destruct H as [Hl H].
    apply andb_prop in H. destruct H as [Ht Hk].
    rewrite Hl, Hk. cbn [existsb] in *. rewrite Ht.
    now rewrite orb_true_r.
  - intros [Hin H]. split; [exact Hin|].
    apply andb_prop in H. destruct H as [Hl H].
    apply andb_prop in H. destruct H as [Ht Hk].
    rewrite Hl, Ht. cbn [andb].
    destruct ks as [|k' ks'].
    + reflexivity.
    + rewrite keyword_conditions_hold.
      cbn [forallb] in Hk. apply andb_prop in Hk. now destruct Hk.
Qed.
